(** * Predator's Odyssey: a shallow embedding of [src/main.py]

    The Python classes [Skill], [FusionTable], [Creature], [Player] and
    [Enemy] become modules holding a record and the methods as functions
    on it.  Mutation of [self] is explicit state passing; Python integers
    are unbounded, hence [Z]; list positions are [nat].

    The two sources of non-determinism are made explicit:
    - [random]: every value drawn from the ambient generator is an
      argument of the function that draws it (the rolls of
      [random.randint(1, 3)] form a stream indexed by the number of draws
      made so far);
    - [input()]: the lines typed by the user are a list of strings
      consumed from the head; reading past its end is Python's [EOFError].
      The builtin [int()] that parses a line is a parameter, [None]
      standing for [ValueError]. *)

From Stdlib Require Import ZArith Lia Ascii.
From stdpp Require Import gmap strings list sorting.

Local Open Scope string_scope.
Local Open Scope list_scope.
Local Open Scope Z_scope.

(** ** Exceptions and the error monad *)

(** The exceptions the modelled code can let escape. *)
Inductive exn : Type :=
| EOFError      (* input() at end of input *)
| IndexError.   (* a list index or del out of range, random.choice([]) *)

(** What running a piece of the program gives: a value, an escaping
    exception, or no answer within the allotted number of loop iterations
    (only [battle] has a loop that the model bounds by fuel). *)
Inductive res (A : Type) : Type :=
| Ok (a : A)
| Raise (e : exn)
| OutOfFuel.

Arguments Ok {A} a.
Arguments Raise {A} e.
Arguments OutOfFuel {A}.

Definition raises {A : Type} (r : res A) : Prop := ∃ e, r = Raise e.

#[global] Instance res_ret : MRet res := λ A a, Ok a.

#[global] Instance res_bind : MBind res := λ A B k c,
  match c with
  | Ok a => k a
  | Raise e => Raise e
  | OutOfFuel => OutOfFuel
  end.

(** [l[i]] for a position [i] that is not negative. *)
Definition getitem {A : Type} (l : list A) (i : nat) : res A :=
  match l !! i with
  | Some x => Ok x
  | None => Raise IndexError
  end.

(** [del l[i]] for a position [i] that is not negative. *)
Definition delitem {A : Type} (l : list A) (i : nat) : res (list A) :=
  if decide (i < length l)%nat then Ok (delete i l) else Raise IndexError.

(** ** class Skill *)

Module Skill.

Record t : Type := mk {
  name : string;
  description : string;
  category : string
}.

End Skill.

(** ** class FusionTable *)

Module FusionTable.

(** [_table: Dict[frozenset[str], Skill]]. *)
Record t : Type := mk {
  _table : gmap (gset string) Skill.t
}.

(** The local function [add] of [_register_default_fusions]:
    [self._table[frozenset([skill_a, skill_b])] = result].  Strings are
    hashable and the body has no test, so the answer is always [Ok]. *)
Definition add (skill_a skill_b : string) (result : Skill.t) (self : t)
  : res t :=
  Ok {| _table := <[ {[ skill_a; skill_b ]} := result ]> (_table self) |}.

Definition _register_default_fusions (self : t) : res t :=
  self ← add "Thread Shot" "Acid Glob"
    (Skill.mk "Acidic Web"
       "Fires a sticky web that deals damage over time and slows victims."
       "Venom") self;
  self ← add "Water Jet" "Electric Current"
    (Skill.mk "Conductive Spray"
       "A stream of water that electrocutes multiple foes."
       "Water/Lightning") self;
  add "Fireball" "Wind Burst"
    (Skill.mk "Flaming Cyclone"
       "A fiery vortex that pulls in enemies while burning them."
       "Fire/Wind") self.

(** [__init__]. *)
Definition init : res t :=
  _register_default_fusions {| _table := ∅ |}.

(** [fuse]: [dict.get] answers [None] for a missing key. *)
Definition fuse (self : t) (skill_a skill_b : Skill.t) : option Skill.t :=
  let key : gset string := {[ Skill.name skill_a; Skill.name skill_b ]} in
  _table self !! key.

End FusionTable.

(** ** class Creature *)

Module Creature.

Record t : Type := mk {
  name : string;
  max_health : Z;
  health : Z;
  skills : list Skill.t
}.

(** [__init__]: [self.health = max_health], [self.skills = skills[:]]. *)
Definition init (name : string) (max_health : Z) (skills : list Skill.t) : t :=
  {| name := name; max_health := max_health; health := max_health;
     skills := skills |}.

Definition is_alive (self : t) : bool := bool_decide (health self > 0).

Definition take_damage (self : t) (amount : Z) : t :=
  {| name := name self; max_health := max_health self;
     health := Z.max 0 (health self - amount);
     skills := skills self |}.

(** [attack_power]: [roll] is the value of [random.randint(1, 3)]. *)
Definition attack_power (self : t) (roll : Z) : Z :=
  Z.of_nat (length (skills self)) * roll.

(** [absorb_skill]: the names known so far are collected in a set. *)
Definition absorb_skill (self : t) (skill : Skill.t) : t :=
  let known : gset string := list_to_set (Skill.name <$> skills self) in
  if decide (Skill.name skill ∉ known)
  then {| name := name self; max_health := max_health self;
          health := health self; skills := skills self ++ [skill] |}
  else self.

(** The invariant of the data model: [0 <= health <= max_health]. *)
Definition health_ok (self : t) : Prop :=
  0 ≤ health self ≤ max_health self.

End Creature.

(** ** The catalogue of basic skills *)

Definition BASIC_SKILLS : list Skill.t := [
  Skill.mk "Fireball" "Hurl a small orb of fire." "Fire";
  Skill.mk "Thread Shot" "Shoot a sticky thread that briefly snares foes." "Wind";
  Skill.mk "Acid Glob" "Spit a glob of acid that corrodes armour." "Venom";
  Skill.mk "Water Jet" "Send a focused jet of water at high pressure." "Water";
  Skill.mk "Electric Current" "Emit a surge of electricity." "Lightning";
  Skill.mk "Stone Shard" "Launch a sharp shard of rock." "Earth";
  Skill.mk "Wind Burst" "Release a concussive blast of air." "Wind";
  Skill.mk "Shadow Sneak" "Momentarily fade into shadows, avoiding harm." "Dark"
].

(** ** class Enemy(Creature) *)

Module Enemy.

(** [__init__]: [name] is the value of [random.choice] over the monster
    names and [skills] the value of [random.sample(BASIC_SKILLS,
    random.randint(1, 2))]; an enemy has no attribute beyond a creature's. *)
Definition init (player_layer : Z) (name : string) (skills : list Skill.t)
  : Creature.t :=
  let max_health := 5 + Z.max 0 (- player_layer - 10) * 2 in
  Creature.init name max_health skills.

End Enemy.

(** ** class Player(Creature) *)

Module Player.

(** A player is a creature with the extra attribute [layer]. *)
Record t : Type := mk {
  base : Creature.t;
  layer : Z
}.

Definition with_base (self : t) (c : Creature.t) : t :=
  {| base := c; layer := layer self |}.

(** [__init__]: [starting_skills] is the value of
    [random.sample(BASIC_SKILLS, 2)]. *)
Definition init (starting_skills : list Skill.t) : t :=
  {| base := Creature.init "You" 15 starting_skills; layer := -10 |}.

Definition evolve (self : t) : t :=
  let max_health := Creature.max_health (base self) + 5 in
  with_base self
    {| Creature.name := Creature.name (base self);
       Creature.max_health := max_health;
       Creature.health := max_health;
       Creature.skills := Creature.skills (base self) |}.

(** The pairs built by the two nested [for] loops of [choose_fusion]:
    [(i, j, fusion)] for [i < j] in ascending order, where the table has
    a fusion of [skills[i]] and [skills[j]]. *)
Definition fusion_pairs (fusion_table : FusionTable.t) (skills : list Skill.t)
  : list (nat * nat * Skill.t) :=
  i ← seq 0 (length skills);
  j ← seq (i + 1) (length skills - (i + 1));
  match skills !! i, skills !! j with
  | Some s1, Some s2 =>
      match FusionTable.fuse fusion_table s1 s2 with
      | Some fusion => [(i, j, fusion)]
      | None => []
      end
  | _, _ => []
  end.

Section Prompts.

(** Python's builtin [int()] applied to a line; [None] is [ValueError]. *)
Variable int : string → option Z.

(** The [while True] loop of [choose_skill_to_absorb]; a line that is not
    a number in range prints a message and asks again. *)
Fixpoint choose_skill_loop (unique_skills : list Skill.t) (inputs : list string)
  : res (Skill.t * list string) :=
  match inputs with
  | [] => Raise EOFError
  | line :: inputs =>
      match int line with
      | Some choice =>
          if decide (1 ≤ choice ≤ Z.of_nat (length unique_skills))
          then skill ← getitem unique_skills (Z.to_nat (choice - 1));
               mret (skill, inputs)
          else choose_skill_loop unique_skills inputs
      | None => choose_skill_loop unique_skills inputs
      end
  end.

(** [choose_skill_to_absorb]: [pick] is the position drawn by
    [random.choice(enemy.skills)]. *)
Definition choose_skill_to_absorb (self : t) (enemy : Creature.t)
    (pick : nat) (inputs : list string) : res (Skill.t * list string) :=
  let known : gset string :=
    list_to_set (Skill.name <$> Creature.skills (base self)) in
  let unique_skills :=
    filter (λ s, Skill.name s ∉ known) (Creature.skills enemy) in
  match unique_skills with
  | [] => skill ← getitem (Creature.skills enemy) pick; mret (skill, inputs)
  | _ => choose_skill_loop unique_skills inputs
  end.

(** The [while True] loop of [choose_fusion]. *)
Fixpoint choose_fusion_loop (pairs : list (nat * nat * Skill.t))
    (self : Creature.t) (inputs : list string)
  : res (Creature.t * list string) :=
  match inputs with
  | [] => Raise EOFError
  | choice :: inputs =>
      if decide (choice = "") then mret (self, inputs)
      else
        match int choice with
        | Some choice_int =>
            if decide (1 ≤ choice_int ≤ Z.of_nat (length pairs))
            then
              '(i, j, result_skill) ← getitem pairs (Z.to_nat (choice_int - 1));
              old_name_0 ← getitem (Creature.skills self) i;
              old_name_1 ← getitem (Creature.skills self) j;
              (* for index in sorted([i, j], reverse=True): del ... *)
              skills ← delitem (Creature.skills self) (Nat.max i j);
              skills ← delitem skills (Nat.min i j);
              let self :=
                {| Creature.name := Creature.name self;
                   Creature.max_health := Creature.max_health self;
                   Creature.health := Creature.health self;
                   Creature.skills := skills |} in
              mret (Creature.absorb_skill self result_skill, inputs)
            else choose_fusion_loop pairs self inputs
        | None => choose_fusion_loop pairs self inputs
        end
  end.

Definition choose_fusion (self : t) (fusion_table : FusionTable.t)
    (inputs : list string) : res (t * list string) :=
  if decide (length (Creature.skills (base self)) < 2)%nat
  then mret (self, inputs)
  else
    let pairs := fusion_pairs fusion_table (Creature.skills (base self)) in
    match pairs with
    | [] => mret (self, inputs)
    | _ =>
        '(c, inputs) ← choose_fusion_loop pairs (base self) inputs;
        mret (with_base self c, inputs)
    end.

End Prompts.

End Player.

(** ** battle *)

(** [battle(player, enemy)].  Only the methods of [Creature] are called on
    either argument.  [rolls n] is the value of the [n]-th call of
    [random.randint(1, 3)] and [k] the number of calls made before the
    battle; [fuel] bounds the number of iterations of the [while] loop.
    The answer carries the returned boolean, both creatures as the battle
    leaves them, and the number of rolls drawn so far. *)
Fixpoint battle (fuel : nat) (rolls : nat → Z) (k : nat)
    (player enemy : Creature.t) : res (bool * Creature.t * Creature.t * nat) :=
  match fuel with
  | O => OutOfFuel
  | S fuel =>
      if Creature.is_alive player && Creature.is_alive enemy then
        (* Player attacks first *)
        let player_damage := Creature.attack_power player (rolls k) in
        let enemy := Creature.take_damage enemy player_damage in
        if negb (Creature.is_alive enemy) then
          mret (true, player, enemy, S k)
        else
          (* Enemy retaliates *)
          let enemy_damage := Creature.attack_power enemy (rolls (S k)) in
          let player := Creature.take_damage player enemy_damage in
          if negb (Creature.is_alive player) then
            mret (false, player, enemy, S (S k))
          else battle fuel rolls (S (S k)) player enemy
      else mret (false, player, enemy, k)
  end.

(** ** play_game *)

(** How one pass through the body of the main loop ends: the loop goes on,
    or it is left by one of the three [break]s. *)
Inductive flow : Type :=
| Continue
| GameOver          (* the player lost a battle *)
| SurfaceReached    (* choice 3 at layer -1 *)
| Quit.             (* choice 4 *)

(** The values drawn from [random] during one exploration. *)
Record encounter : Type := {
  enemy_name : string;         (* random.choice of the monster names *)
  enemy_skills : list Skill.t; (* random.sample(BASIC_SKILLS, randint(1, 2)) *)
  rolls : nat → Z;             (* the calls of random.randint(1, 3) *)
  pick : nat;                  (* position drawn by random.choice(enemy.skills) *)
  evolves : bool               (* random.random() < 0.2 *)
}.

(** The branch [choice == "3"] of the loop body of [play_game]. *)
Definition ascend (player : Player.t) : flow * Player.t :=
  if decide (Player.layer player = -1) then (SurfaceReached, player)
  else
    let player :=
      {| Player.base := Player.base player;
         Player.layer := Player.layer player + 1 |} in
    (* Heal slightly upon ascending a layer *)
    let c := Player.base player in
    let player :=
      Player.with_base player
        {| Creature.name := Creature.name c;
           Creature.max_health := Creature.max_health c;
           Creature.health :=
             Z.min (Creature.max_health c) (Creature.health c + 3);
           Creature.skills := Creature.skills c |} in
    (Continue, player).

Section Session.

Variable int : string → option Z.

(** The body of the [while True] loop of [play_game]. *)
Definition play_game_turn (fuel : nat) (rnd : encounter)
    (fusion_table : FusionTable.t) (player : Player.t) (inputs : list string)
  : res (flow * Player.t * list string) :=
  match inputs with
  | [] => Raise EOFError
  | choice :: inputs =>
      if decide (choice = "1") then
        let enemy := Enemy.init (Player.layer player) (enemy_name rnd)
                       (enemy_skills rnd) in
        '(won, c, enemy, _) ← battle fuel (rolls rnd) 0 (Player.base player) enemy;
        let player := Player.with_base player c in
        if won : bool then
          '(skill, inputs) ←
             Player.choose_skill_to_absorb int player enemy (pick rnd) inputs;
          let player :=
            Player.with_base player
              (Creature.absorb_skill (Player.base player) skill) in
          if evolves rnd
          then mret (Continue, Player.evolve player, inputs)
          else mret (Continue, player, inputs)
        else mret (GameOver, player, inputs)
      else if decide (choice = "2") then
        '(player, inputs) ← Player.choose_fusion int player fusion_table inputs;
        mret (Continue, player, inputs)
      else if decide (choice = "3") then
        let '(f, player) := ascend player in mret (f, player, inputs)
      else if decide (choice = "4") then
        mret (Quit, player, inputs)
      else mret (Continue, player, inputs)
  end.

End Session.

Section Game.

Variable int : string → option Z.

(** The [while True] loop of [play_game]: [turns] bounds the number of
    passes through its body and [fuel] the length of each battle;
    [rnd i] holds the values [random] gives during pass [i]. *)
Fixpoint play_game_loop (turns fuel : nat) (rnd : nat → encounter) (i : nat)
    (fusion_table : FusionTable.t) (player : Player.t) (inputs : list string)
  : res (flow * Player.t * list string) :=
  match turns with
  | O => OutOfFuel
  | S turns =>
      '(f, player, inputs) ←
         play_game_turn int fuel (rnd i) fusion_table player inputs;
      match f with
      | Continue =>
          play_game_loop turns fuel rnd (S i) fusion_table player inputs
      | _ => mret (f, player, inputs)
      end
  end.

(** [play_game()]: [starting_skills] is the value of
    [random.sample(BASIC_SKILLS, 2)] drawn by [Player()].  The answer
    tells which [break] ended the session, the player at that point and
    the lines left unread. *)
Definition play_game (turns fuel : nat) (starting_skills : list Skill.t)
    (rnd : nat → encounter) (inputs : list string)
  : res (flow * Player.t * list string) :=
  fusion_table ← FusionTable.init;
  let player := Player.init starting_skills in
  play_game_loop turns fuel rnd 0 fusion_table player inputs.

End Game.

(** ** Well-formed sessions *)

(** The names of the skills a creature knows, in order. *)
Definition skill_names (c : Creature.t) : list string :=
  Skill.name <$> Creature.skills c.

(** What [random] guarantees about the values of one exploration:
    [randint(1, 3)] lies between 1 and 3 and [random.choice] draws a
    position of the list it is given. *)
Definition encounter_ok (rnd : encounter) : Prop :=
  (∀ n, 1 ≤ rolls rnd n ≤ 3) ∧ (pick rnd < length (enemy_skills rnd))%nat.

(** The state of a player between two passes of the main loop: alive and
    within its health bounds, on a playable layer, with at least one
    skill and no two skills of the same name. *)
Definition session_ok (player : Player.t) : Prop :=
  Creature.health_ok (Player.base player) ∧
  0 < Creature.health (Player.base player) ∧
  -10 ≤ Player.layer player ≤ -1 ∧
  (1 ≤ length (Creature.skills (Player.base player)))%nat ∧
  NoDup (skill_names (Player.base player)).

(** The order of the menu of fusions: by first position, then by second. *)
Definition pair_lt (x y : nat * nat * Skill.t) : Prop :=
  (x.1.1 < y.1.1)%nat ∨ (x.1.1 = y.1.1 ∧ (x.1.2 < y.1.2)%nat).

(** The two names of a pair of skills are [a] and [b], in one order or
    the other. *)
Definition names_are (A B : Skill.t) (a b : string) : Prop :=
  (Skill.name A = a ∧ Skill.name B = b) ∨ (Skill.name A = b ∧ Skill.name B = a).

(** The results of the second and third default fusion rules. *)
Definition conductive_spray : Skill.t :=
  Skill.mk "Conductive Spray"
    "A stream of water that electrocutes multiple foes."
    "Water/Lightning".

Definition flaming_cyclone : Skill.t :=
  Skill.mk "Flaming Cyclone"
    "A fiery vortex that pulls in enemies while burning them."
    "Fire/Wind".

(** ** Histories of health-changing operations *)

(** The operations of the program that write [health] or [max_health],
    in the order a session may perform them.  The state is the player
    together with the enemy of the current encounter, if any. *)
Inductive event : Type :=
| Spawn (name : string) (skills : list Skill.t) (* enemy = Enemy(player.layer) *)
| HitEnemy (amount : Z)                         (* enemy.take_damage(amount) *)
| HitPlayer (amount : Z)                        (* player.take_damage(amount) *)
| Evolve                                        (* player.evolve() *)
| Ascend.                                       (* choice 3 of play_game *)

Definition world : Type := Player.t * option Creature.t.

Definition apply_event (w : world) (ev : event) : world :=
  let '(player, enemy) := w in
  match ev with
  | Spawn name skills =>
      (player, Some (Enemy.init (Player.layer player) name skills))
  | HitEnemy amount =>
      (player, (λ e, Creature.take_damage e amount) <$> enemy)
  | HitPlayer amount =>
      (Player.with_base player
         (Creature.take_damage (Player.base player) amount), enemy)
  | Evolve => (Player.evolve player, enemy)
  | Ascend => ((ascend player).2, enemy)
  end.

Definition run_events (w : world) (evs : list event) : world :=
  foldl apply_event w evs.

(** The damage amounts of a history are not negative. *)
Definition event_nonneg (ev : event) : Prop :=
  match ev with
  | HitEnemy amount | HitPlayer amount => 0 ≤ amount
  | _ => True
  end.

Definition world_ok (w : world) : Prop :=
  Creature.health_ok (Player.base w.1) ∧
  match w.2 with
  | Some enemy => Creature.health_ok enemy
  | None => True
  end.

(** ** Concrete environments *)

(** Python's [int()] on a line, in base 10, as an instance of the
    parameter [int] for running the model on concrete input.  A character
    of the line is a code point below 256, as [string] has them.  The
    line may have white space at both ends (the six ASCII white space
    characters, and the code points 133 and 160), a sign, and single
    underscores between digits; anything else is [ValueError], as is a
    numeral of more than [int_max_str_digits] digits. *)
Definition int_max_str_digits : nat := 4300.

Definition is_space (c : Ascii.ascii) : bool :=
  let n := Ascii.N_of_ascii c in
  ((9 <=? n) && (n <=? 13) || (n =? 32) || (n =? 133) || (n =? 160))%N.

Definition digit_value (c : Ascii.ascii) : option Z :=
  let d := Z.of_N (Ascii.N_of_ascii c) - 48 in
  if decide (0 ≤ d ≤ 9) then Some d else None.

Fixpoint lstrip (s : string) : string :=
  match s with
  | EmptyString => EmptyString
  | String c rest => if is_space c then lstrip rest else s
  end.

(** The digits of a numeral and what follows them: [count] digits of
    value [acc] have been read, and [after_digit] tells whether the last
    character read was one of them. *)
Fixpoint read_digits (s : string) (acc : Z) (count : nat) (after_digit : bool)
  : option Z :=
  match s with
  | EmptyString =>
      if after_digit && bool_decide (count ≤ int_max_str_digits)%nat
      then Some acc else None
  | String c rest =>
      match digit_value c with
      | Some d => read_digits rest (10 * acc + d) (S count) true
      | None =>
          if Ascii.eqb c "_"%char then
            if after_digit then read_digits rest acc count false else None
          else if after_digit && bool_decide (lstrip s = EmptyString)
                  && bool_decide (count ≤ int_max_str_digits)%nat
          then Some acc else None
      end
  end.

Definition int_decimal (s : string) : option Z :=
  match lstrip s with
  | String "+"%char rest => read_digits rest 0 0 false
  | String "-"%char rest => Z.opp <$> read_digits rest 0 0 false
  | s => read_digits s 0 0 false
  end.

(** The result of the first default fusion rule. *)
Definition acidic_web : Skill.t :=
  Skill.mk "Acidic Web"
    "Fires a sticky web that deals damage over time and slows victims."
    "Venom".

(** The table built by [FusionTable()]. *)
Definition default_table : FusionTable.t :=
  match FusionTable.init with
  | Ok tbl => tbl
  | _ => {| FusionTable._table := ∅ |}
  end.

(** An encounter with a goblin that knows "Fireball"; every roll is 2. *)
Definition goblin_encounter : encounter :=
  {| enemy_name := "Goblin"; enemy_skills := take 1 BASIC_SKILLS;
     rolls := λ _, 2; pick := 0%nat; evolves := true |}.

(** * Properties *)

(** ** Health *)

Section Health.

Import Creature.

Lemma take_damage_health (c : t) (amount : Z) :
  health (take_damage c amount) = Z.max 0 (health c - amount).
Proof. reflexivity. Qed.

Lemma take_damage_max_health (c : t) (amount : Z) :
  max_health (take_damage c amount) = max_health c.
Proof. reflexivity. Qed.

Lemma take_damage_skills (c : t) (amount : Z) :
  skills (take_damage c amount) = skills c.
Proof. reflexivity. Qed.

Lemma take_damage_ok (c : t) (amount : Z) :
  0 ≤ amount → health_ok c → health_ok (take_damage c amount).
Proof. unfold health_ok. rewrite take_damage_health. simpl. lia. Qed.

Lemma take_damage_at_zero (c : t) (amount : Z) :
  0 ≤ amount → health c = 0 → take_damage c amount = c.
Proof.
  intros Hamount Hzero. destruct c as [n mh h sk]. simpl in Hzero. subst h.
  unfold take_damage. simpl. f_equal. lia.
Qed.

Lemma init_ok (n : string) (mh : Z) (sk : list Skill.t) :
  0 ≤ mh → health_ok (init n mh sk).
Proof. unfold health_ok. simpl. lia. Qed.

Lemma enemy_init_ok (d : Z) (n : string) (sk : list Skill.t) :
  health_ok (Enemy.init d n sk).
Proof. apply init_ok. lia. Qed.

Lemma evolve_ok (p : Player.t) :
  health_ok (Player.base p) → health_ok (Player.base (Player.evolve p)).
Proof. unfold health_ok. simpl. lia. Qed.

Lemma ascend_ok (p : Player.t) :
  health_ok (Player.base p) → health_ok (Player.base (ascend p).2).
Proof.
  unfold health_ok, ascend. case_decide; simpl; lia.
Qed.

Lemma apply_event_ok (w : world) (ev : event) :
  event_nonneg ev → world_ok w → world_ok (apply_event w ev).
Proof.
  destruct w as [p e]. intros Hev [Hp He]. simpl in Hp, He.
  destruct ev; simpl in Hev; split; simpl; try done.
  - apply enemy_init_ok.
  - destruct e; simpl; [by apply take_damage_ok | done].
  - by apply take_damage_ok.
  - by apply evolve_ok.
  - by apply ascend_ok.
Qed.

Lemma run_events_ok (evs : list event) : ∀ w : world,
  Forall event_nonneg evs → world_ok w → world_ok (run_events w evs).
Proof.
  induction evs as [|ev evs IH]; intros w Hevs Hw; [done|].
  inversion_clear Hevs. simpl. apply IH; [done|]. by apply apply_event_ok.
Qed.

End Health.

(** C2. Health bounds: starting from any state in which the player and the
    current enemy satisfy [0 <= health <= max_health] (a fresh session is
    such a state), the bounds hold after every prefix of every history of
    [take_damage] calls with non-negative amounts interleaved with enemy
    spawning, evolution and ascension healing.  [take_damage] sets
    [health] to [max(0, health - amount)], and leaves a creature whose
    health is 0 unchanged when the amount is not negative. *)
Theorem health_bounds_invariant (w : world) (evs : list event) :
  world_ok w →
  Forall event_nonneg evs →
  (∀ n : nat, world_ok (run_events w (take n evs))) ∧
  (∀ starting_skills, world_ok (Player.init starting_skills, None)) ∧
  (∀ c amount,
     Creature.health (Creature.take_damage c amount)
     = Z.max 0 (Creature.health c - amount)) ∧
  (∀ c amount,
     0 ≤ amount → Creature.health c = 0 → Creature.take_damage c amount = c).
Proof.
  intros Hw Hevs. split; [|split; [|split]].
  - intros n. apply run_events_ok; [by apply Forall_take | done].
  - intros sk. split; [|done]. by apply init_ok.
  - intros c amount. apply take_damage_health.
  - intros c amount. apply take_damage_at_zero.
Qed.

Lemma health_bounds_invariant_witness :
  let w : world := (Player.init (take 2 BASIC_SKILLS), None) in
  let evs := [Spawn "Goblin" (take 1 BASIC_SKILLS); HitEnemy 4; HitPlayer 6;
              HitEnemy 2; Evolve; HitPlayer 30; Ascend; HitPlayer 0] in
  (∀ n : nat, world_ok (run_events w (take n evs))) ∧
  (∀ starting_skills, world_ok (Player.init starting_skills, None)) ∧
  (∀ c amount,
     Creature.health (Creature.take_damage c amount)
     = Z.max 0 (Creature.health c - amount)) ∧
  (∀ c amount,
     0 ≤ amount → Creature.health c = 0 → Creature.take_damage c amount = c).
Proof.
  apply health_bounds_invariant.
  - split; simpl; [unfold Creature.health_ok; simpl; lia | exact I].
  - repeat constructor; simpl; lia.
Defined.

(** C10. [take_damage] computes [max(0, health - amount)] for every integer
    amount; with a negative amount a single call can leave [health]
    strictly above [max_health], starting from a creature within bounds. *)
Theorem take_damage_negative_amount_overshoots :
  (∀ c amount,
     Creature.health (Creature.take_damage c amount)
     = Z.max 0 (Creature.health c - amount)) ∧
  (∃ c amount,
     amount < 0 ∧ Creature.health_ok c ∧
     Creature.max_health (Creature.take_damage c amount)
     < Creature.health (Creature.take_damage c amount)).
Proof.
  split; [reflexivity|].
  exists (Creature.init "You" 15 (take 2 BASIC_SKILLS)), (-1).
  unfold Creature.health_ok. simpl. lia.
Qed.

(** ** Enemy health *)

(** C5. An enemy spawned at layer [d] has
    [max_health = 5 + max(0, -d - 10) * 2]; at layer -10 this is 5 and at
    layer -31 it is 47. *)
Theorem enemy_max_health_formula :
  (∀ d name skills,
     Creature.max_health (Enemy.init d name skills)
     = 5 + Z.max 0 (- d - 10) * 2) ∧
  (∀ name skills, Creature.max_health (Enemy.init (-10) name skills) = 5) ∧
  (∀ name skills, Creature.max_health (Enemy.init (-31) name skills) = 47).
Proof. repeat split. Qed.

(** C4, as the specification words it, fails: at layer -11, inside
    [-20, -1], a spawned enemy has 7 health points, not 5. *)
Lemma enemy_max_health_at_minus_11 :
  -20 ≤ -11 ≤ -1 ∧
  Creature.max_health (Enemy.init (-11) "Slime" (take 1 BASIC_SKILLS)) = 7 ∧
  ¬ (∀ d name skills,
       -20 ≤ d ≤ -1 → Creature.max_health (Enemy.init d name skills) = 5) ∧
  ¬ (∀ d name skills,
       5 < Creature.max_health (Enemy.init d name skills) → d < -20).
Proof.
  split; [lia|]. split; [reflexivity|]. split.
  - intros H. specialize (H (-11) "Slime" (take 1 BASIC_SKILLS)).
    simpl in H. lia.
  - intros H. specialize (H (-11) "Slime" (take 1 BASIC_SKILLS)).
    simpl in H. lia.
Qed.

(** C4, amended. The formula yields 5 for every layer from -10 upwards,
    hence for -10 up to -1, and the health exceeds 5 exactly when the
    layer is below -10, where it is [5 + 2 * (-d - 10)]. *)
Theorem enemy_max_health_scaling (d : Z) (name : string) (skills : list Skill.t) :
  (-10 ≤ d → Creature.max_health (Enemy.init d name skills) = 5) ∧
  (5 < Creature.max_health (Enemy.init d name skills) ↔ d < -10) ∧
  (d < -10 →
   Creature.max_health (Enemy.init d name skills) = 5 + 2 * (- d - 10)).
Proof. unfold Enemy.init, Creature.init. cbn [Creature.max_health]. lia. Qed.

Lemma enemy_max_health_scaling_witness :
  Creature.max_health (Enemy.init (-3) "Bat" (take 2 BASIC_SKILLS)) = 5 ∧
  Creature.max_health (Enemy.init (-15) "Imp" (take 1 BASIC_SKILLS)) = 15.
Proof.
  split.
  - apply (enemy_max_health_scaling (-3) "Bat" (take 2 BASIC_SKILLS)). lia.
  - apply (enemy_max_health_scaling (-15) "Imp" (take 1 BASIC_SKILLS)). lia.
Defined.

(** ** Ascension *)

Lemma play_game_turn_ascend int fuel rnd fusion_table player inputs :
  play_game_turn int fuel rnd fusion_table player ("3" :: inputs)
  = Ok ((ascend player).1, (ascend player).2, inputs).
Proof.
  unfold play_game_turn.
  repeat (case_decide; [discriminate|]). case_decide; [|done].
  by destruct (ascend player).
Qed.

(** C9. Choosing to ascend at layer -1 ends the session with
    [SurfaceReached] and leaves the player, its layer included, as it was;
    at any other layer the session goes on with the layer increased by 1
    and the health set to [min(max_health, health + 3)], nothing else
    changing. *)
Theorem ascend_terminal_or_climb int fuel rnd fusion_table player inputs :
  (Player.layer player = -1 →
   play_game_turn int fuel rnd fusion_table player ("3" :: inputs)
   = Ok (SurfaceReached, player, inputs)) ∧
  (Player.layer player ≠ -1 →
   ∃ player',
     play_game_turn int fuel rnd fusion_table player ("3" :: inputs)
     = Ok (Continue, player', inputs) ∧
     Player.layer player' = Player.layer player + 1 ∧
     Creature.health (Player.base player')
     = Z.min (Creature.max_health (Player.base player))
             (Creature.health (Player.base player) + 3) ∧
     Creature.max_health (Player.base player')
     = Creature.max_health (Player.base player) ∧
     Creature.skills (Player.base player')
     = Creature.skills (Player.base player) ∧
     Creature.name (Player.base player')
     = Creature.name (Player.base player)).
Proof.
  rewrite play_game_turn_ascend. unfold ascend. split; intros Hlayer.
  - by rewrite decide_True.
  - rewrite decide_False by done. eexists. split; [reflexivity|]. done.
Qed.

Lemma ascend_terminal_or_climb_witness :
  let at_exit := {| Player.base := Creature.init "You" 15 (take 2 BASIC_SKILLS);
                    Player.layer := -1 |} in
  let hurt := Player.with_base (Player.init (take 2 BASIC_SKILLS))
                (Creature.take_damage (Creature.init "You" 15 []) 13) in
  play_game_turn int_decimal 0 goblin_encounter {| FusionTable._table := ∅ |}
    at_exit ["3"; "4"] = Ok (SurfaceReached, at_exit, ["4"]) ∧
  ∃ player',
    play_game_turn int_decimal 0 goblin_encounter {| FusionTable._table := ∅ |}
      hurt ["3"; "4"] = Ok (Continue, player', ["4"]) ∧
    Player.layer player' = -10 + 1 ∧
    Creature.health (Player.base player') = Z.min 15 (2 + 3).
Proof.
  intros at_exit hurt. split.
  - apply ascend_terminal_or_climb. reflexivity.
  - destruct (ascend_terminal_or_climb int_decimal 0 goblin_encounter
                {| FusionTable._table := ∅ |} hurt ["4"]) as [_ Hclimb].
    destruct Hclimb as (player' & Hturn & Hlayer & Hhealth & _).
    + simpl. lia.
    + exists player'. split; [exact Hturn|]. split; [exact Hlayer|exact Hhealth].
Defined.

(** ** Absorbing skills *)

Section Absorb.

Import Creature.

Lemma absorb_skill_known (c : t) (skill : Skill.t) :
  Skill.name skill ∈ Skill.name <$> skills c → absorb_skill c skill = c.
Proof.
  intros Hin. unfold absorb_skill. rewrite decide_False; [done|].
  intros Hnotin. apply Hnotin. by apply elem_of_list_to_set.
Qed.

Lemma absorb_skill_new (c : t) (skill : Skill.t) :
  Skill.name skill ∉ Skill.name <$> skills c →
  absorb_skill c skill
  = {| name := name c; max_health := max_health c; health := health c;
       skills := skills c ++ [skill] |}.
Proof.
  intros Hnotin. unfold absorb_skill. rewrite decide_True; [done|].
  by rewrite elem_of_list_to_set.
Qed.

Lemma absorb_skill_knows (c : t) (skill : Skill.t) :
  Skill.name skill ∈ Skill.name <$> skills (absorb_skill c skill).
Proof.
  destruct (decide (Skill.name skill ∈ Skill.name <$> skills c)) as [Hin|Hnotin].
  - by rewrite absorb_skill_known.
  - rewrite absorb_skill_new by done. simpl. rewrite fmap_app. set_solver.
Qed.

End Absorb.

(** C8. Absorbing a skill whose name the creature already knows changes
    nothing; hence after a first absorption, absorbing any skill of the
    same name again is a no-op.  A skill with a new name goes to the end
    of the list, so the skills known before keep their order, and health
    and name are never touched. *)
Theorem absorb_skill_idempotent (c : Creature.t) (skill skill' : Skill.t) :
  (Skill.name skill ∈ Skill.name <$> Creature.skills c →
   Creature.absorb_skill c skill = c) ∧
  (Skill.name skill' = Skill.name skill →
   Creature.absorb_skill (Creature.absorb_skill c skill) skill'
   = Creature.absorb_skill c skill) ∧
  (Skill.name skill ∉ Skill.name <$> Creature.skills c →
   Creature.skills (Creature.absorb_skill c skill)
   = Creature.skills c ++ [skill]) ∧
  (∃ added,
     Creature.skills (Creature.absorb_skill c skill) = Creature.skills c ++ added).
Proof.
  split; [apply absorb_skill_known|]. split; [|split].
  - intros Hname. apply absorb_skill_known. rewrite Hname.
    apply absorb_skill_knows.
  - intros Hnotin. by rewrite absorb_skill_new.
  - destruct (decide (Skill.name skill ∈ Skill.name <$> Creature.skills c)).
    + exists []. rewrite absorb_skill_known by done. by rewrite app_nil_r.
    + exists [skill]. by rewrite absorb_skill_new.
Qed.

Lemma absorb_skill_idempotent_witness :
  let fireball := Skill.mk "Fireball" "Hurl a small orb of fire." "Fire" in
  let fireball' := Skill.mk "Fireball" "A bigger orb." "Fire" in
  let shard := Skill.mk "Stone Shard" "Launch a sharp shard of rock." "Earth" in
  let c := Creature.init "You" 15 (take 2 BASIC_SKILLS) in
  Creature.absorb_skill c fireball' = c ∧
  Creature.absorb_skill (Creature.absorb_skill c shard) shard
  = Creature.absorb_skill c shard ∧
  Creature.skills (Creature.absorb_skill c shard) = Creature.skills c ++ [shard].
Proof.
  intros fireball fireball' shard c. split; [|split].
  - apply (absorb_skill_idempotent c fireball' fireball'). set_solver.
  - apply (absorb_skill_idempotent c shard shard). reflexivity.
  - apply (absorb_skill_idempotent c shard shard).
    simpl. rewrite !elem_of_cons, elem_of_nil. intros [?|[?|[]]]; discriminate.
Defined.

(** ** The fusion table *)

Section Fusion.

Import FusionTable.

Lemma frozenset_pair_comm (a b : string) :
  ({[ a; b ]} : gset string) = {[ b; a ]}.
Proof. apply (comm_L (∪)). Qed.

Lemma fuse_comm (tbl : t) (A B : Skill.t) : fuse tbl A B = fuse tbl B A.
Proof. unfold fuse. by rewrite frozenset_pair_comm. Qed.

Lemma fuse_add (tbl : t) (a b : string) (r : Skill.t) (A B : Skill.t) :
  Skill.name A = a → Skill.name B = b →
  ∃ tbl', add a b r tbl = Ok tbl' ∧ fuse tbl' A B = Some r.
Proof.
  intros <- <-. eexists. split; [reflexivity|].
  unfold fuse. simpl. apply lookup_insert_eq.
Qed.

Lemma fuse_empty (A B : Skill.t) : fuse {| _table := ∅ |} A B = None.
Proof. unfold fuse. simpl. apply lookup_empty. Qed.

Lemma init_fuse_thread_acid (tbl : t) (A B : Skill.t) :
  init = Ok tbl →
  Skill.name A = "Thread Shot" → Skill.name B = "Acid Glob" →
  fuse tbl A B = Some acidic_web.
Proof.
  intros Hinit HA HB. unfold fuse. rewrite HA, HB.
  injection Hinit as <-. vm_compute. reflexivity.
Qed.

End Fusion.

(** C6. Looking up a fusion is commutative on every table: both orders of
    the two skills give the same answer, which is the entry of the table
    under the unordered pair of the two names.  A rule registered for the
    two names is found in either order, and the answer is [None], without
    any exception, when there is none, as on the empty table. *)
Theorem fuse_commutative (tbl : FusionTable.t) (A B : Skill.t) :
  FusionTable.fuse tbl A B = FusionTable.fuse tbl B A ∧
  FusionTable.fuse tbl A B
  = FusionTable._table tbl !! ({[ Skill.name B; Skill.name A ]} : gset string) ∧
  (∀ r, ∃ tbl',
     FusionTable.add (Skill.name A) (Skill.name B) r tbl = Ok tbl' ∧
     FusionTable.fuse tbl' A B = Some r ∧ FusionTable.fuse tbl' B A = Some r) ∧
  FusionTable.fuse {| FusionTable._table := ∅ |} A B = None ∧
  FusionTable.fuse {| FusionTable._table := ∅ |} B A = None.
Proof.
  split; [apply fuse_comm|]. split; [by rewrite fuse_comm|].
  split; [|split; apply fuse_empty].
  intros r.
  destruct (fuse_add tbl (Skill.name A) (Skill.name B) r A B) as (tbl' & ? & ?);
    [done..|].
  exists tbl'. rewrite <- (fuse_comm tbl' A B). done.
Qed.

(** ** Applying a fusion *)

Lemma fusion_pairs_two (tbl : FusionTable.t) (s1 s2 : Skill.t) :
  Player.fusion_pairs tbl [s1; s2]
  = match FusionTable.fuse tbl s1 s2 with
    | Some fusion => [(0%nat, 1%nat, fusion)]
    | None => []
    end.
Proof.
  unfold Player.fusion_pairs. cbn.
  destruct (FusionTable.fuse tbl s1 s2); reflexivity.
Qed.

Lemma choose_fusion_two int (tbl : FusionTable.t) (player : Player.t)
    (s1 s2 fusion : Skill.t) (inputs : list string) :
  int "1" = Some 1 →
  Creature.skills (Player.base player) = [s1; s2] →
  FusionTable.fuse tbl s1 s2 = Some fusion →
  Player.choose_fusion int player tbl ("1" :: inputs)
  = Ok (Player.with_base player
          {| Creature.name := Creature.name (Player.base player);
             Creature.max_health := Creature.max_health (Player.base player);
             Creature.health := Creature.health (Player.base player);
             Creature.skills := [fusion] |}, inputs).
Proof.
  intros Hint Hskills Hfuse. unfold Player.choose_fusion.
  rewrite Hskills, fusion_pairs_two, Hfuse. cbn.
  rewrite Hint, Hskills. cbn. reflexivity.
Qed.

(** C7. A player who knows exactly "Thread Shot" and "Acid Glob", in
    either order, is offered exactly one fusion by the default table;
    answering 1 deletes both skills, the one at position 1 first, and
    leaves "Acidic Web" as the only known skill.  Health, layer and the
    rest of the input are untouched. *)
Theorem fuse_thread_shot_acid_glob int (tbl : FusionTable.t) (player : Player.t)
    (inputs : list string) :
  int "1" = Some 1 →
  FusionTable.init = Ok tbl →
  Skill.name <$> Creature.skills (Player.base player)
    = ["Thread Shot"; "Acid Glob"] ∨
  Skill.name <$> Creature.skills (Player.base player)
    = ["Acid Glob"; "Thread Shot"] →
  Player.fusion_pairs tbl (Creature.skills (Player.base player))
    = [(0%nat, 1%nat, acidic_web)] ∧
  (∃ skills,
     delitem (Creature.skills (Player.base player)) (Nat.max 0 1) = Ok skills ∧
     delitem skills (Nat.min 0 1) = Ok []) ∧
  ∃ player',
    Player.choose_fusion int player tbl ("1" :: inputs) = Ok (player', inputs) ∧
    Creature.skills (Player.base player') = [acidic_web] ∧
    Skill.name <$> Creature.skills (Player.base player') = ["Acidic Web"] ∧
    Creature.health (Player.base player') = Creature.health (Player.base player) ∧
    Creature.max_health (Player.base player')
    = Creature.max_health (Player.base player) ∧
    Player.layer player' = Player.layer player.
Proof.
  intros Hint Hinit Hnames.
  destruct (Creature.skills (Player.base player))
    as [|s1 [|s2 [|s3 sk]]] eqn:Hskills;
    try (destruct Hnames as [Hnames|Hnames]; discriminate Hnames).
  assert (FusionTable.fuse tbl s1 s2 = Some acidic_web) as Hfuse.
  { destruct Hnames as [Hnames|Hnames]; injection Hnames as Hn1 Hn2.
    - by apply init_fuse_thread_acid.
    - rewrite fuse_comm. by apply init_fuse_thread_acid. }
  split; [by rewrite fusion_pairs_two, Hfuse|]. split.
  - exists [s1]. split; reflexivity.
  - eexists. split; [by apply (choose_fusion_two int tbl player s1 s2)|]. done.
Qed.

Lemma fuse_thread_shot_acid_glob_witness :
  let tbl :=
    {| FusionTable._table :=
         <[ ({[ "Fireball"; "Wind Burst" ]} : gset string) :=
              Skill.mk "Flaming Cyclone"
                "A fiery vortex that pulls in enemies while burning them."
                "Fire/Wind" ]>
         (<[ ({[ "Water Jet"; "Electric Current" ]} : gset string) :=
              Skill.mk "Conductive Spray"
                "A stream of water that electrocutes multiple foes."
                "Water/Lightning" ]>
         (<[ ({[ "Thread Shot"; "Acid Glob" ]} : gset string) := acidic_web ]>
            ∅)) |} in
  let player := Player.init (take 2 (drop 1 BASIC_SKILLS)) in
  ∃ player',
    Player.choose_fusion int_decimal player tbl ["1"; "4"] = Ok (player', ["4"]) ∧
    Creature.skills (Player.base player') = [acidic_web].
Proof.
  intros tbl player.
  destruct (fuse_thread_shot_acid_glob int_decimal tbl player ["4"])
    as (_ & _ & player' & Hchoose & Hskills & _).
  - reflexivity.
  - reflexivity.
  - left. reflexivity.
  - exists player'. split; [exact Hchoose | exact Hskills].
Defined.

(** ** Combat *)

Section Battle.

Import Creature.

Variable rolls : nat → Z.
Hypothesis rolls_range : ∀ n, 1 ≤ rolls n ≤ 3.

Lemma attack_power_at_least_skills (c : t) (n : nat) :
  Z.of_nat (length (skills c)) ≤ attack_power c (rolls n).
Proof. unfold attack_power. specialize (rolls_range n). nia. Qed.

Lemma is_alive_true (c : t) : is_alive c = true ↔ 0 < health c.
Proof. unfold is_alive. rewrite bool_decide_eq_true. lia. Qed.

Lemma is_alive_false (c : t) : is_alive c = false ↔ health c ≤ 0.
Proof. unfold is_alive. rewrite bool_decide_eq_false. lia. Qed.

(** A hit of at least one point on a living creature lowers its health. *)
Lemma take_damage_decreases (c : t) (amount : Z) :
  1 ≤ amount → 0 < health c →
  (Z.to_nat (health (take_damage c amount)) < Z.to_nat (health c))%nat.
Proof. intros Hamount Hhealth. rewrite take_damage_health. lia. Qed.

(** With an armed player, fuel above the enemy's health is enough. *)
Lemma battle_total (fuel : nat) : ∀ (k : nat) (player enemy : t),
  (1 ≤ length (skills player))%nat →
  (Z.to_nat (health enemy) < fuel)%nat →
  ∃ r, battle fuel rolls k player enemy = Ok r.
Proof.
  induction fuel as [|fuel IH]; intros k player enemy Hskills Hfuel; [lia|].
  cbn [battle].
  destruct (is_alive player && is_alive enemy) eqn:Halive; [|by eexists].
  apply andb_true_iff in Halive as [_ Henemy]. apply is_alive_true in Henemy.
  set (enemy' := take_damage enemy (attack_power player (rolls k))).
  destruct (is_alive enemy') eqn:Henemy'; cbn [negb]; [|by eexists].
  set (player' := take_damage player (attack_power enemy' (rolls (S k)))).
  destruct (is_alive player') eqn:Hplayer'; cbn [negb]; [|by eexists].
  apply IH; [done|].
  assert (Z.to_nat (health enemy') < Z.to_nat (health enemy))%nat; [|lia].
  apply take_damage_decreases; [|done].
  pose proof (attack_power_at_least_skills player k). lia.
Qed.

End Battle.

(** More fuel does not change an answer already reached. *)
Lemma battle_fuel_mono (rolls : nat → Z) (fuel : nat) :
  ∀ (fuel' k : nat) (player enemy : Creature.t) r,
  battle fuel rolls k player enemy = Ok r →
  (fuel ≤ fuel')%nat →
  battle fuel' rolls k player enemy = Ok r.
Proof.
  induction fuel as [|fuel IH]; intros fuel' k player enemy r Hrun Hle;
    [discriminate Hrun|].
  destruct fuel' as [|fuel']; [lia|]. cbn [battle] in *.
  repeat case_match; try done.
  apply IH; [done|lia].
Qed.

Lemma battle_no_exception (rolls : nat → Z) (fuel : nat) :
  ∀ (k : nat) (player enemy : Creature.t),
  ¬ raises (battle fuel rolls k player enemy).
Proof.
  induction fuel as [|fuel IH]; intros k player enemy [e He];
    [discriminate He|].
  cbn [battle] in He.
  repeat case_match; try discriminate He.
  apply (IH _ _ _ (ex_intro _ e He)).
Qed.

(** C1. When both creatures know at least one skill and every roll lies
    between 1 and 3, each attack is worth at least the number of known
    skills, hence at least 1, and strictly lowers a positive health.  The
    battle then ends within as many turns as the enemy has health points:
    with any fuel above that number it returns, without exception, one
    boolean ([true] for the player's victory, [false] for defeat), and no
    amount of fuel gives any other answer. *)
Theorem battle_terminates_with_one_outcome
    (rolls : nat → Z) (k : nat) (player enemy : Creature.t) :
  (1 ≤ length (Creature.skills player))%nat →
  (1 ≤ length (Creature.skills enemy))%nat →
  (∀ n, 1 ≤ rolls n ≤ 3) →
  (∀ n, 1 ≤ Z.of_nat (length (Creature.skills player))
          ≤ Creature.attack_power player (rolls n)) ∧
  (∀ n, 1 ≤ Z.of_nat (length (Creature.skills enemy))
          ≤ Creature.attack_power enemy (rolls n)) ∧
  (∀ n, 0 < Creature.health enemy →
        Creature.health
          (Creature.take_damage enemy (Creature.attack_power player (rolls n)))
        < Creature.health enemy) ∧
  (∀ n, 0 < Creature.health player →
        Creature.health
          (Creature.take_damage player (Creature.attack_power enemy (rolls n)))
        < Creature.health player) ∧
  ∃ (won : bool) (player' enemy' : Creature.t) (k' : nat),
    (∀ fuel, (Z.to_nat (Creature.health enemy) < fuel)%nat →
       battle fuel rolls k player enemy = Ok (won, player', enemy', k')) ∧
    (∀ fuel r, battle fuel rolls k player enemy = Ok r →
       r = (won, player', enemy', k')) ∧
    (∀ fuel, ¬ raises (battle fuel rolls k player enemy)).
Proof.
  intros Hplayer Henemy Hrolls.
  assert (∀ c n, (1 ≤ length (Creature.skills c))%nat →
                 1 ≤ Z.of_nat (length (Creature.skills c))
                   ≤ Creature.attack_power c (rolls n)) as Hpower.
  { intros c n Hc. split; [lia|]. by apply attack_power_at_least_skills. }
  split; [by auto|]. split; [by auto|]. split; [|split].
  - intros n Hpos. rewrite take_damage_health.
    specialize (Hpower player n Hplayer). lia.
  - intros n Hpos. rewrite take_damage_health.
    specialize (Hpower enemy n Henemy). lia.
  - set (enough := S (Z.to_nat (Creature.health enemy))).
    destruct (battle_total rolls Hrolls enough k player enemy)
      as [[[[won player'] enemy'] k'] Hrun]; [done|lia|].
    exists won, player', enemy', k'. split; [|split].
    + intros fuel Hfuel.
      apply (battle_fuel_mono rolls enough); [done|]. unfold enough. lia.
    + intros fuel r Hr.
      apply (battle_fuel_mono rolls _ (fuel `max` enough)%nat) in Hr; [|lia].
      apply (battle_fuel_mono rolls _ (fuel `max` enough)%nat) in Hrun; [|lia].
      congruence.
    + intros fuel. apply battle_no_exception.
Qed.

Lemma battle_terminates_with_one_outcome_witness :
  let player := Creature.init "You" 15 (take 2 BASIC_SKILLS) in
  let enemy := Enemy.init (-10) "Goblin" (take 1 BASIC_SKILLS) in
  ∃ (won : bool) (player' enemy' : Creature.t) (k' : nat),
    (∀ fuel, (Z.to_nat (Creature.health enemy) < fuel)%nat →
       battle fuel (λ _, 2) 0 player enemy = Ok (won, player', enemy', k')) ∧
    (∀ fuel r, battle fuel (λ _, 2) 0 player enemy = Ok r →
       r = (won, player', enemy', k')) ∧
    (∀ fuel, ¬ raises (battle fuel (λ _, 2) 0 player enemy)).
Proof.
  intros player enemy.
  apply (battle_terminates_with_one_outcome (λ _, 2) 0 player enemy).
  - simpl. lia.
  - simpl. lia.
  - intros n. lia.
Defined.

(** The goblin of the example falls at the second blow. *)
Example battle_goblin :
  battle 6 (λ _, 2) 0 (Creature.init "You" 15 (take 2 BASIC_SKILLS))
    (Enemy.init (-10) "Goblin" (take 1 BASIC_SKILLS))
  = Ok (true,
        Creature.take_damage (Creature.init "You" 15 (take 2 BASIC_SKILLS)) 2,
        Creature.take_damage
          (Creature.take_damage
             (Enemy.init (-10) "Goblin" (take 1 BASIC_SKILLS)) 4) 4,
        3%nat).
Proof. reflexivity. Qed.

(** Without skills the attack is worth nothing and the battle of two
    living creatures never ends: no fuel suffices. *)
Lemma battle_unarmed_stalls (rolls : nat → Z) (fuel : nat) :
  ∀ (k : nat) (player enemy : Creature.t),
  Creature.skills player = [] → Creature.skills enemy = [] →
  0 < Creature.health player → 0 < Creature.health enemy →
  battle fuel rolls k player enemy = OutOfFuel.
Proof.
  induction fuel as [|fuel IH]; intros k player enemy Hp He Hhp Hhe; [done|].
  cbn [battle]. unfold Creature.attack_power. rewrite Hp. cbn [length].
  rewrite take_damage_skills, He. cbn [length].
  rewrite !Z.mul_0_l.
  assert (∀ c, 0 < Creature.health c →
               Creature.is_alive (Creature.take_damage c 0) = true) as Halive.
  { intros c Hc. apply is_alive_true. rewrite take_damage_health. lia. }
  rewrite !Halive by done.
  rewrite (proj2 (is_alive_true player)), (proj2 (is_alive_true enemy)) by done.
  cbn [andb negb]. apply IH; rewrite ?take_damage_skills, ?take_damage_health;
    try done; lia.
Qed.

(** ** The model at work *)

(** Exploring from a fresh session: the goblin (5 health, one skill) is
    beaten at the second blow, the player absorbs "Fireball" and evolves
    to 20 of 20 health. *)
Example explore_absorb_evolve :
  play_game_turn int_decimal 6 goblin_encounter default_table
    (Player.init (take 2 (drop 1 BASIC_SKILLS))) ["1"; "x"; "1"; "3"]
  = Ok (Continue,
        {| Player.base :=
             {| Creature.name := "You"; Creature.max_health := 20;
                Creature.health := 20;
                Creature.skills :=
                  take 2 (drop 1 BASIC_SKILLS) ++ take 1 BASIC_SKILLS |};
           Player.layer := -10 |},
        ["3"]).
Proof. vm_compute. reflexivity. Qed.

(** Fusing from the menu, after a line that is not a number. *)
Example menu_fusion :
  play_game_turn int_decimal 0 goblin_encounter default_table
    (Player.init (take 2 (drop 1 BASIC_SKILLS))) ["2"; "one"; "1"; "4"]
  = Ok (Continue,
        {| Player.base :=
             {| Creature.name := "You"; Creature.max_health := 15;
                Creature.health := 15; Creature.skills := [acidic_web] |};
           Player.layer := -10 |},
        ["4"]).
Proof. vm_compute. reflexivity. Qed.

(** A fresh player loses to an enemy of 47 health met at layer -31. *)
Example explore_defeat :
  (play_game_turn int_decimal 40 goblin_encounter default_table
     {| Player.base := Creature.init "You" 15 (take 2 BASIC_SKILLS);
        Player.layer := -31 |} ["1"]) ≫= (λ r, Ok (r.1.1))
  = Ok GameOver.
Proof. vm_compute. reflexivity. Qed.

(** * Further properties of the program *)

(** ** Damage, enemies and the fusion table *)

(** X1. Damage accumulates: two hits in a row, the second one not
    negative, leave the creature as one hit of the summed amount. *)
Theorem take_damage_accumulates (c : Creature.t) (a b : Z) :
  0 ≤ b →
  Creature.take_damage (Creature.take_damage c a) b
  = Creature.take_damage c (a + b).
Proof.
  intros Hb. unfold Creature.take_damage. simpl. f_equal. lia.
Qed.

Lemma take_damage_accumulates_witness :
  Creature.take_damage
    (Creature.take_damage (Creature.init "Bat" 5 (take 1 BASIC_SKILLS)) 2) 6
  = Creature.take_damage (Creature.init "Bat" 5 (take 1 BASIC_SKILLS)) (2 + 6).
Proof. apply take_damage_accumulates. lia. Defined.

(** X2. Deeper layers never have weaker foes: the health of a fresh enemy
    does not decrease when the layer decreases; it is never below 5, so a
    fresh enemy is alive, at full health. *)
Theorem enemy_health_monotone (d1 d2 : Z) (name : string) (skills : list Skill.t) :
  d1 ≤ d2 →
  Creature.max_health (Enemy.init d2 name skills)
  ≤ Creature.max_health (Enemy.init d1 name skills) ∧
  5 ≤ Creature.max_health (Enemy.init d1 name skills) ∧
  Creature.health (Enemy.init d1 name skills)
  = Creature.max_health (Enemy.init d1 name skills) ∧
  Creature.is_alive (Enemy.init d1 name skills) = true.
Proof.
  intros Hd. unfold Enemy.init, Creature.init, Creature.is_alive.
  cbn [Creature.max_health Creature.health].
  rewrite bool_decide_eq_true. lia.
Qed.

Lemma enemy_health_monotone_witness :
  Creature.max_health (Enemy.init (-12) "Imp" (take 1 BASIC_SKILLS))
  ≤ Creature.max_health (Enemy.init (-40) "Imp" (take 1 BASIC_SKILLS)).
Proof.
  apply (enemy_health_monotone (-40) (-12) "Imp" (take 1 BASIC_SKILLS)). lia.
Defined.

Lemma frozenset_pair_eq (a b c d : string) :
  ({[ c; d ]} : gset string) = {[ a; b ]} →
  (c = a ∧ d = b) ∨ (c = b ∧ d = a).
Proof.
  intros Heq.
  assert (∀ x, x ∈ ({[ c; d ]} : gset string) ↔ x ∈ ({[ a; b ]} : gset string))
    as Hmem by (intros x; by rewrite Heq).
  pose proof (Hmem a) as Ha. pose proof (Hmem b) as Hb.
  pose proof (Hmem c) as Hc. pose proof (Hmem d) as Hd.
  rewrite !elem_of_union, !elem_of_singleton in Ha, Hb, Hc, Hd.
  destruct Hc as [[->| ->] _]; [by left| |]; destruct Hd as [[->| ->] _];
    try (by right); intuition congruence.
Qed.

(** X3. The last registration wins, whatever the order in which the two
    names are given, and no other pair of names is affected: after
    registering [r1] for (a, b) and then [r2] for (b, a), the pair fuses
    into [r2] in both orders, and every pair of skills whose names are not
    a and b, in one order or the other, fuses as before. *)
Theorem add_overwrites_and_frames (tbl tbl1 tbl2 : FusionTable.t)
    (a b : string) (r1 r2 : Skill.t) :
  FusionTable.add a b r1 tbl = Ok tbl1 →
  FusionTable.add b a r2 tbl1 = Ok tbl2 →
  (∀ A B, Skill.name A = a → Skill.name B = b →
     FusionTable.fuse tbl2 A B = Some r2 ∧ FusionTable.fuse tbl2 B A = Some r2) ∧
  (∀ C D,
     ¬ (Skill.name C = a ∧ Skill.name D = b) →
     ¬ (Skill.name C = b ∧ Skill.name D = a) →
     FusionTable.fuse tbl2 C D = FusionTable.fuse tbl C D).
Proof.
  intros [= <-] [= <-]. unfold FusionTable.fuse. cbn [FusionTable._table].
  rewrite (frozenset_pair_comm b a), insert_insert_eq. split.
  - intros A B <- <-. rewrite (frozenset_pair_comm (Skill.name B)).
    by rewrite lookup_insert_eq.
  - intros C D Hab Hba. apply lookup_insert_ne.
    intros Heq. symmetry in Heq. apply frozenset_pair_eq in Heq. tauto.
Qed.

Lemma add_overwrites_and_frames_witness :
  let empty := {| FusionTable._table := ∅ |} in
  let cyclone := Skill.mk "Flaming Cyclone" "A fiery vortex." "Fire/Wind" in
  let tbl1 :=
    {| FusionTable._table :=
         <[ ({[ "Fireball"; "Wind Burst" ]} : gset string) := acidic_web ]> ∅ |} in
  let tbl2 :=
    {| FusionTable._table :=
         <[ ({[ "Wind Burst"; "Fireball" ]} : gset string) := cyclone ]>
           (FusionTable._table tbl1) |} in
  let fireball := Skill.mk "Fireball" "Hurl a small orb of fire." "Fire" in
  let burst := Skill.mk "Wind Burst" "Release a concussive blast of air." "Wind" in
  FusionTable.fuse tbl2 fireball burst = Some cyclone ∧
  FusionTable.fuse tbl2 fireball fireball = FusionTable.fuse empty fireball fireball.
Proof.
  intros empty cyclone tbl1 tbl2 fireball burst.
  destruct (add_overwrites_and_frames empty tbl1 tbl2 "Fireball" "Wind Burst"
              acidic_web cyclone) as [Hwins Hframe].
  - reflexivity.
  - reflexivity.
  - split.
    + apply (Hwins fireball burst); reflexivity.
    + apply Hframe; intros [H1 H2]; discriminate.
Defined.

(** ** Skills and fusions *)

Lemma absorb_skill_keeps_names_distinct_aux (c : Creature.t) (skill : Skill.t) :
  NoDup (skill_names c) →
  NoDup (skill_names (Creature.absorb_skill c skill)) ∧
  Skill.name skill ∈ skill_names (Creature.absorb_skill c skill).
Proof.
  intros Hnodup. split; [|apply absorb_skill_knows].
  unfold skill_names in *.
  destruct (decide (Skill.name skill ∈ Skill.name <$> Creature.skills c)).
  - by rewrite absorb_skill_known.
  - rewrite absorb_skill_new by done. cbn [Creature.skills].
    rewrite fmap_app. apply NoDup_app. split; [done|]. split.
    + intros x Hx. cbn. rewrite elem_of_cons, elem_of_nil. intros [->|[]]. done.
    + cbn. apply NoDup_singleton.
Qed.

(** X4. Absorbing never creates two skills of the same name: a list of
    skills with distinct names stays so, and the skill absorbed is known
    afterwards. *)
Theorem absorb_skill_keeps_names_distinct (c : Creature.t) (skill : Skill.t) :
  NoDup (skill_names c) →
  NoDup (skill_names (Creature.absorb_skill c skill)) ∧
  Skill.name skill ∈ skill_names (Creature.absorb_skill c skill).
Proof. apply absorb_skill_keeps_names_distinct_aux. Qed.

Lemma absorb_skill_keeps_names_distinct_witness :
  NoDup (skill_names
           (Creature.absorb_skill (Creature.init "You" 15 (take 2 BASIC_SKILLS))
              acidic_web)).
Proof.
  apply absorb_skill_keeps_names_distinct.
  cbn. repeat constructor; rewrite ?elem_of_cons, ?elem_of_nil;
    intros H; repeat destruct H as [H|H]; discriminate || done.
Defined.

Lemma fusion_pairs_exact_aux (tbl : FusionTable.t) (skills : list Skill.t)
    (i j : nat) (f : Skill.t) :
  (i, j, f) ∈ Player.fusion_pairs tbl skills ↔
  (i < j)%nat ∧
  ∃ s1 s2, skills !! i = Some s1 ∧ skills !! j = Some s2 ∧
           FusionTable.fuse tbl s1 s2 = Some f.
Proof.
  unfold Player.fusion_pairs. rewrite list_elem_of_bind. split.
  - intros (i' & Hin & Hi'). apply list_elem_of_bind in Hin as (j' & Hin & Hj').
    apply elem_of_seq in Hi', Hj'.
    destruct (skills !! i') as [s1|] eqn:H1; [|by apply elem_of_nil in Hin].
    destruct (skills !! j') as [s2|] eqn:H2; [|by apply elem_of_nil in Hin].
    destruct (FusionTable.fuse tbl s1 s2) as [f'|] eqn:Hf;
      [|by apply elem_of_nil in Hin].
    apply list_elem_of_singleton in Hin as [= -> -> ->].
    split; [lia|]. by exists s1, s2.
  - intros (Hij & s1 & s2 & H1 & H2 & Hf).
    pose proof (lookup_lt_Some _ _ _ H1). pose proof (lookup_lt_Some _ _ _ H2).
    exists i. split; [|apply elem_of_seq; lia].
    apply list_elem_of_bind. exists j. split; [|apply elem_of_seq; lia].
    rewrite H1, H2, Hf. by apply list_elem_of_singleton.
Qed.

(** X5. The menu of fusions is exact: [(i, j, f)] is offered if and only
    if [i < j] are positions of two known skills that the table fuses
    into [f].  In particular no skill is paired with itself and no pair is
    offered in both orders. *)
Theorem fusion_pairs_exact (tbl : FusionTable.t) (skills : list Skill.t)
    (i j : nat) (f : Skill.t) :
  (i, j, f) ∈ Player.fusion_pairs tbl skills ↔
  (i < j)%nat ∧
  ∃ s1 s2, skills !! i = Some s1 ∧ skills !! j = Some s2 ∧
           FusionTable.fuse tbl s1 s2 = Some f.
Proof. apply fusion_pairs_exact_aux. Qed.

Lemma seq_strongly_sorted (n : nat) : ∀ a : nat, StronglySorted lt (seq a n).
Proof.
  induction n as [|n IH]; intros a; cbn; constructor; [apply IH|].
  apply Forall_forall. intros x Hx. apply elem_of_seq in Hx. lia.
Qed.

(** Concatenating sorted blocks taken in increasing order of their index. *)
Lemma bind_strongly_sorted {X : Type} (R : relation X) (g : nat → list X) :
  (∀ i, StronglySorted R (g i)) →
  (∀ i i' x y, (i < i')%nat → x ∈ g i → y ∈ g i' → R x y) →
  ∀ l : list nat, StronglySorted lt l → StronglySorted R (l ≫= g).
Proof.
  intros Hblock Hcross l. induction l as [|a l IH]; intros Hl; [constructor|].
  apply StronglySorted_cons in Hl as [Ha Hl]. rewrite bind_cons.
  apply StronglySorted_app. split; [|split; [apply Hblock | by apply IH]].
  intros x y Hx Hy. apply list_elem_of_bind in Hy as (i' & Hy & Hi').
  apply (Hcross a i'); [|done..].
  rewrite Forall_forall in Ha. by apply Ha.
Qed.

(** X6. The menu of fusions is numbered in a fixed order: the entries come
    in strictly increasing order of their pair of positions, first
    position first; hence no pair of positions is listed twice. *)
Theorem fusion_pairs_sorted (tbl : FusionTable.t) (skills : list Skill.t) :
  StronglySorted pair_lt (Player.fusion_pairs tbl skills).
Proof.
  unfold Player.fusion_pairs.
  apply bind_strongly_sorted; [| |apply seq_strongly_sorted].
  - intros i. apply bind_strongly_sorted; [| |apply seq_strongly_sorted].
    + intros j. repeat case_match; repeat constructor.
    + intros j j' x y Hlt Hx Hy.
      repeat case_match; try (by apply elem_of_nil in Hx);
        try (by apply elem_of_nil in Hy).
      apply list_elem_of_singleton in Hx as ->.
      apply list_elem_of_singleton in Hy as ->. right. cbn. lia.
  - intros i i' x y Hlt Hx Hy.
    apply list_elem_of_bind in Hx as (j & Hx & _).
    apply list_elem_of_bind in Hy as (j' & Hy & _).
    repeat case_match; try (by apply elem_of_nil in Hx);
      try (by apply elem_of_nil in Hy).
    apply list_elem_of_singleton in Hx as ->.
    apply list_elem_of_singleton in Hy as ->. left. cbn. lia.
Qed.

(** The skills left once positions [j] and then [i] are deleted, with the
    fusion absorbed. *)
Lemma choose_fusion_loop_cases int (pairs : list (nat * nat * Skill.t))
    (self : Creature.t) (inputs : list string) :
  (∀ i j f, (i, j, f) ∈ pairs →
     (i < j)%nat ∧ (j < length (Creature.skills self))%nat) →
  Player.choose_fusion_loop int pairs self inputs = Raise EOFError ∨
  ∃ self' inputs',
    Player.choose_fusion_loop int pairs self inputs = Ok (self', inputs') ∧
    suffix inputs' inputs ∧ (length inputs' < length inputs)%nat ∧
    (self' = self ∨
     ∃ i j f, (i, j, f) ∈ pairs ∧
       self' = Creature.absorb_skill
                 {| Creature.name := Creature.name self;
                    Creature.max_health := Creature.max_health self;
                    Creature.health := Creature.health self;
                    Creature.skills :=
                      delete i (delete j (Creature.skills self)) |} f).
Proof.
  intros Hpairs. induction inputs as [|choice inputs IH]; [by left|].
  assert (Player.choose_fusion_loop int pairs self inputs = Raise EOFError ∨
          ∃ self' inputs',
            Player.choose_fusion_loop int pairs self inputs = Ok (self', inputs') ∧
            suffix inputs' (choice :: inputs) ∧
            (length inputs' < length (choice :: inputs))%nat ∧
            (self' = self ∨
             ∃ i j f, (i, j, f) ∈ pairs ∧
               self' = Creature.absorb_skill
                 {| Creature.name := Creature.name self;
                    Creature.max_health := Creature.max_health self;
                    Creature.health := Creature.health self;
                    Creature.skills :=
                      delete i (delete j (Creature.skills self)) |} f))
    as Hretry.
  { destruct IH as [IH|(self' & inputs' & Hrun & Hsuffix & Hlen & Hcases)];
      [by left|right].
    exists self', inputs'. split; [done|]. split; [by apply suffix_cons_r|].
    split; [cbn; lia|done]. }
  cbn [Player.choose_fusion_loop]. case_decide as Hempty.
  { right. exists self, inputs. split; [done|].
    split; [apply suffix_cons_r; done|]. split; [cbn; lia|by left]. }
  destruct (int choice) as [choice_int|]; [|done].
  case_decide as Hrange; [|done].
  destruct (pairs !! Z.to_nat (choice_int - 1)) as [[[i j] f]|] eqn:Hpair.
  2:{ apply lookup_ge_None in Hpair. lia. }
  assert ((i, j, f) ∈ pairs) as Hin by (apply list_elem_of_lookup; eauto).
  destruct (Hpairs i j f Hin) as [Hij Hj].
  destruct (lookup_lt_is_Some_2 (Creature.skills self) i) as [s1 Hs1]; [lia|].
  destruct (lookup_lt_is_Some_2 (Creature.skills self) j) as [s2 Hs2]; [lia|].
  right. eexists _, inputs. split.
  - unfold getitem. rewrite Hpair. cbn. rewrite Hs1, Hs2. cbn.
    unfold delitem. rewrite (Nat.max_r i j), (Nat.min_l i j) by lia.
    rewrite decide_True by done. cbn.
    rewrite decide_True by (rewrite length_delete by done; lia).
    cbn. reflexivity.
  - split; [apply suffix_cons_r; done|]. split; [cbn; lia|].
    right. by exists i, j, f.
Qed.

Lemma choose_fusion_outcome_aux int (player : Player.t) (tbl : FusionTable.t)
    (inputs : list string) :
  Player.choose_fusion int player tbl inputs = Raise EOFError ∨
  ∃ player' inputs',
    Player.choose_fusion int player tbl inputs = Ok (player', inputs') ∧
    suffix inputs' inputs ∧
    Player.layer player' = Player.layer player ∧
    Creature.health (Player.base player') = Creature.health (Player.base player) ∧
    Creature.max_health (Player.base player')
    = Creature.max_health (Player.base player) ∧
    Creature.name (Player.base player') = Creature.name (Player.base player) ∧
    (player' = player ∨
     ∃ i j s1 s2 f,
       (i < j)%nat ∧
       Creature.skills (Player.base player) !! i = Some s1 ∧
       Creature.skills (Player.base player) !! j = Some s2 ∧
       FusionTable.fuse tbl s1 s2 = Some f ∧
       Creature.skills (Player.base player')
       = Creature.skills
           (Creature.absorb_skill
              {| Creature.name := Creature.name (Player.base player);
                 Creature.max_health := Creature.max_health (Player.base player);
                 Creature.health := Creature.health (Player.base player);
                 Creature.skills :=
                   delete i (delete j (Creature.skills (Player.base player))) |}
              f)).
Proof.
  unfold Player.choose_fusion. case_decide as Hfew.
  { right. exists player, inputs. repeat split; try done. by left. }
  destruct (Player.fusion_pairs tbl (Creature.skills (Player.base player)))
    as [|pair pairs] eqn:Hpairs.
  { right. exists player, inputs. repeat split; try done. by left. }
  rewrite <- Hpairs.
  destruct (choose_fusion_loop_cases int
              (Player.fusion_pairs tbl (Creature.skills (Player.base player)))
              (Player.base player) inputs)
    as [Heof|(self' & inputs' & Hrun & Hsuffix & _ & Hcases)].
  { intros i j f Hin. apply fusion_pairs_exact_aux in Hin
      as (Hij & s1 & s2 & _ & H2 & _).
    split; [done|]. by apply lookup_lt_Some in H2. }
  { left. by rewrite Heof. }
  right. rewrite Hrun. cbn. exists (Player.with_base player self'), inputs'.
  split; [done|]. split; [done|].
  destruct Hcases as [->|(i & j & f & Hin & ->)].
  - repeat split; try done. left. by destruct player.
  - cbn [Player.with_base Player.layer Player.base].
    unfold Creature.absorb_skill. split; [done|].
    repeat split; try (by case_decide).
    right. apply fusion_pairs_exact_aux in Hin as (Hij & s1 & s2 & H1 & H2 & Hf).
    by exists i, j, s1, s2, f.
Qed.

(** X7. Fusing never fails on an index: the only exception [choose_fusion]
    lets escape is the end of input.  Otherwise it returns, having read a
    part of the input, with health, layer and name untouched and with the
    skills either unchanged (fewer than two skills, nothing to fuse, or
    the empty line) or with two fusible skills at positions [i < j]
    deleted and their fusion absorbed. *)
Theorem choose_fusion_outcome int (player : Player.t) (tbl : FusionTable.t)
    (inputs : list string) :
  Player.choose_fusion int player tbl inputs = Raise EOFError ∨
  ∃ player' inputs',
    Player.choose_fusion int player tbl inputs = Ok (player', inputs') ∧
    suffix inputs' inputs ∧
    Player.layer player' = Player.layer player ∧
    Creature.health (Player.base player') = Creature.health (Player.base player) ∧
    Creature.max_health (Player.base player')
    = Creature.max_health (Player.base player) ∧
    Creature.name (Player.base player') = Creature.name (Player.base player) ∧
    (player' = player ∨
     ∃ i j s1 s2 f,
       (i < j)%nat ∧
       Creature.skills (Player.base player) !! i = Some s1 ∧
       Creature.skills (Player.base player) !! j = Some s2 ∧
       FusionTable.fuse tbl s1 s2 = Some f ∧
       Creature.skills (Player.base player')
       = Creature.skills
           (Creature.absorb_skill
              {| Creature.name := Creature.name (Player.base player);
                 Creature.max_health := Creature.max_health (Player.base player);
                 Creature.health := Creature.health (Player.base player);
                 Creature.skills :=
                   delete i (delete j (Creature.skills (Player.base player))) |}
              f)).
Proof. apply choose_fusion_outcome_aux. Qed.

Lemma absorb_skill_length (c : Creature.t) (skill : Skill.t) :
  (length (Creature.skills c)
   ≤ length (Creature.skills (Creature.absorb_skill c skill))
   ≤ length (Creature.skills c) + 1)%nat ∧
  (1 ≤ length (Creature.skills (Creature.absorb_skill c skill)))%nat.
Proof.
  unfold Creature.absorb_skill. case_decide as Hknown; cbn.
  - rewrite length_app. cbn. lia.
  - split; [lia|]. destruct (Creature.skills c); [|cbn; lia].
    apply elem_of_list_to_set in Hknown. by apply elem_of_nil in Hknown.
Qed.

Lemma choose_fusion_keeps_skills_aux int (player player' : Player.t)
    (tbl : FusionTable.t) (inputs inputs' : list string) :
  Player.choose_fusion int player tbl inputs = Ok (player', inputs') →
  ((1 ≤ length (Creature.skills (Player.base player)))%nat →
   (1 ≤ length (Creature.skills (Player.base player')))%nat) ∧
  (NoDup (skill_names (Player.base player)) →
   NoDup (skill_names (Player.base player'))) ∧
  (length (Creature.skills (Player.base player'))
   ≤ length (Creature.skills (Player.base player))
   ≤ length (Creature.skills (Player.base player')) + 2)%nat.
Proof.
  intros Hrun.
  destruct (choose_fusion_outcome_aux int player tbl inputs)
    as [Heof|(p & ins & Hrun' & _ & _ & _ & _ & _ & Hcases)]; [congruence|].
  rewrite Hrun in Hrun'. injection Hrun' as <- <-.
  destruct Hcases as [->|(i & j & s1 & s2 & f & Hij & H1 & H2 & _ & Hskills)].
  { split; [done|]. split; [done|lia]. }
  set (rest := {| Creature.name := Creature.name (Player.base player);
                  Creature.max_health := Creature.max_health (Player.base player);
                  Creature.health := Creature.health (Player.base player);
                  Creature.skills :=
                    delete i (delete j (Creature.skills (Player.base player))) |})
    in Hskills.
  assert (length (Creature.skills rest) + 2
          = length (Creature.skills (Player.base player)))%nat as Hrest.
  { cbn. apply lookup_lt_Some in H2 as Hj.
    rewrite length_delete by (rewrite list_lookup_delete_lt by done; eauto).
    rewrite length_delete by eauto. lia. }
  pose proof (absorb_skill_length rest f) as [Hlen Hone].
  unfold skill_names. rewrite Hskills. split; [done|]. split; [|lia].
  intros Hnodup. apply absorb_skill_keeps_names_distinct_aux.
  unfold skill_names. cbn. rewrite !list_fmap_delete.
  eapply sublist_NoDup; [exact Hnodup|]. etrans; apply sublist_delete.
Qed.

(** X8. A fusion never leaves the player without skills and never creates
    two skills of the same name; on net the number of skills stays the
    same (nothing fused) or drops by one, or by two when the fusion was
    already known. *)
Theorem choose_fusion_keeps_skills int (player player' : Player.t)
    (tbl : FusionTable.t) (inputs inputs' : list string) :
  Player.choose_fusion int player tbl inputs = Ok (player', inputs') →
  ((1 ≤ length (Creature.skills (Player.base player)))%nat →
   (1 ≤ length (Creature.skills (Player.base player')))%nat) ∧
  (NoDup (skill_names (Player.base player)) →
   NoDup (skill_names (Player.base player'))) ∧
  (length (Creature.skills (Player.base player'))
   ≤ length (Creature.skills (Player.base player))
   ≤ length (Creature.skills (Player.base player')) + 2)%nat.
Proof. apply choose_fusion_keeps_skills_aux. Qed.

Lemma choose_fusion_keeps_skills_witness :
  ∃ player',
    Player.choose_fusion int_decimal
      (Player.init (take 3 (drop 1 BASIC_SKILLS))) default_table ["7"; "1"]
    = Ok (player', []) ∧
    (1 ≤ length (Creature.skills (Player.base player')))%nat.
Proof.
  eexists. split; [vm_compute; reflexivity|].
  eapply (choose_fusion_keeps_skills int_decimal
            (Player.init (take 3 (drop 1 BASIC_SKILLS))) _ default_table
            ["7"; "1"] []).
  - vm_compute. reflexivity.
  - cbn. lia.
Defined.

(** X9. A wrong answer to the fusion menu is not acted upon: when a menu
    is shown, a line that is not empty and that is not a number of the
    menu is skipped, and the outcome is that of the remaining lines. *)
Theorem choose_fusion_skips_bad_line int (player : Player.t)
    (tbl : FusionTable.t) (bad : string) (inputs : list string) :
  Player.fusion_pairs tbl (Creature.skills (Player.base player)) ≠ [] →
  bad ≠ "" →
  (∀ n, int bad = Some n →
        ¬ (1 ≤ n ≤ Z.of_nat
                     (length (Player.fusion_pairs tbl
                                (Creature.skills (Player.base player)))))) →
  Player.choose_fusion int player tbl (bad :: inputs)
  = Player.choose_fusion int player tbl inputs.
Proof.
  intros Hpairs Hbad Hrange. unfold Player.choose_fusion.
  case_decide as Hfew.
  { exfalso. apply Hpairs.
    destruct (Creature.skills (Player.base player)) as [|s1 [|s2 sk]];
      [reflexivity..|cbn in Hfew; lia]. }
  destruct (Player.fusion_pairs tbl (Creature.skills (Player.base player)))
    as [|pair pairs] eqn:Hmenu; [done|].
  cbn [Player.choose_fusion_loop]. rewrite decide_False by done.
  destruct (int bad) as [n|]; [|done].
  rewrite decide_False; [done|]. by apply Hrange.
Qed.

Lemma choose_fusion_skips_bad_line_witness :
  Player.choose_fusion int_decimal
    (Player.init (take 2 (drop 1 BASIC_SKILLS))) default_table ["2"; "1"]
  = Player.choose_fusion int_decimal
      (Player.init (take 2 (drop 1 BASIC_SKILLS))) default_table ["1"].
Proof.
  apply choose_fusion_skips_bad_line.
  - vm_compute. discriminate.
  - discriminate.
  - intros n [= <-]. vm_compute. intros [_ H]. apply H. reflexivity.
Defined.

(** ** Choosing the skill to absorb *)

Lemma choose_skill_loop_cases int (unique_skills : list Skill.t)
    (inputs : list string) :
  Player.choose_skill_loop int unique_skills inputs = Raise EOFError ∨
  ∃ skill inputs',
    Player.choose_skill_loop int unique_skills inputs = Ok (skill, inputs') ∧
    skill ∈ unique_skills ∧
    suffix inputs' inputs ∧ (length inputs' < length inputs)%nat.
Proof.
  induction inputs as [|line inputs IH]; [by left|].
  assert (Player.choose_skill_loop int unique_skills inputs = Raise EOFError ∨
          ∃ skill inputs',
            Player.choose_skill_loop int unique_skills inputs
            = Ok (skill, inputs') ∧
            skill ∈ unique_skills ∧
            suffix inputs' (line :: inputs) ∧
            (length inputs' < length (line :: inputs))%nat) as Hretry.
  { destruct IH as [IH|(skill & inputs' & Hrun & Hin & Hsuffix & Hlen)];
      [by left|right].
    exists skill, inputs'. split; [done|]. split; [done|].
    split; [by apply suffix_cons_r|cbn; lia]. }
  cbn [Player.choose_skill_loop].
  destruct (int line) as [choice|]; [|done].
  case_decide as Hrange; [|done].
  destruct (unique_skills !! Z.to_nat (choice - 1)) as [skill|] eqn:Hskill.
  2:{ apply lookup_ge_None in Hskill. lia. }
  right. exists skill, inputs. unfold getitem. rewrite Hskill. cbn.
  split; [done|]. split; [apply list_elem_of_lookup; eauto|].
  split; [apply suffix_cons_r; done|lia].
Qed.

Lemma choose_skill_to_absorb_outcome_aux int (self : Player.t)
    (enemy : Creature.t) (pick : nat) (inputs : list string) :
  (pick < length (Creature.skills enemy))%nat →
  Player.choose_skill_to_absorb int self enemy pick inputs = Raise EOFError ∨
  ∃ skill inputs',
    Player.choose_skill_to_absorb int self enemy pick inputs
    = Ok (skill, inputs') ∧
    suffix inputs' inputs ∧
    skill ∈ Creature.skills enemy ∧
    ((∃ s, s ∈ Creature.skills enemy ∧
           Skill.name s ∉ skill_names (Player.base self)) →
     (Skill.name skill ∉ skill_names (Player.base self)) ∧
     Creature.skills (Creature.absorb_skill (Player.base self) skill)
     = Creature.skills (Player.base self) ++ [skill]) ∧
    ((∀ s, s ∈ Creature.skills enemy →
           Skill.name s ∈ skill_names (Player.base self)) →
     inputs' = inputs ∧
     Creature.absorb_skill (Player.base self) skill = Player.base self).
Proof.
  intros Hpick. unfold Player.choose_skill_to_absorb, skill_names.
  set (known := (list_to_set (Skill.name <$> Creature.skills (Player.base self))
                 : gset string)).
  assert (∀ s, s ∈ filter (λ s, Skill.name s ∉ known) (Creature.skills enemy) ↔
               (Skill.name s ∉ Skill.name <$> Creature.skills (Player.base self)) ∧
               s ∈ Creature.skills enemy) as Hfilter.
  { intros s. rewrite list_elem_of_filter. unfold known.
    by rewrite elem_of_list_to_set. }
  destruct (filter (λ s, Skill.name s ∉ known) (Creature.skills enemy))
    as [|u unique_skills] eqn:Hunique.
  - destruct (lookup_lt_is_Some_2 _ _ Hpick) as [skill Hskill].
    right. exists skill, inputs. unfold getitem. rewrite Hskill. cbn.
    assert (skill ∈ Creature.skills enemy) as Hin
      by (apply list_elem_of_lookup; eauto).
    assert (∀ s, s ∈ Creature.skills enemy →
                 Skill.name s ∈ Skill.name <$> Creature.skills (Player.base self))
      as Hall.
    { intros s Hs.
      destruct (decide (Skill.name s
                        ∈ (Skill.name <$> Creature.skills (Player.base self))))
        as [|Hnew]; [done|].
      exfalso. eapply elem_of_nil. apply Hfilter. eauto. }
    split; [done|]. split; [done|]. split; [done|]. split.
    + intros (s & Hs & Hnew). exfalso. by apply Hnew, Hall.
    + intros _. split; [done|]. apply absorb_skill_known. by apply Hall.
  - destruct (choose_skill_loop_cases int (u :: unique_skills) inputs)
      as [Heof|(skill & inputs' & Hrun & Hin & Hsuffix & _)]; [by left|right].
    exists skill, inputs'. apply Hfilter in Hin as [Hnew Hin].
    split; [done|]. split; [done|]. split; [done|]. split.
    + intros _. split; [done|]. by rewrite absorb_skill_new.
    + intros Hall. exfalso. by apply Hnew, Hall.
Qed.

(** X10. When [random.choice] draws a position of the enemy's skills, the
    only exception [choose_skill_to_absorb] lets escape is the end of
    input.  The skill it returns is one of the enemy's.  If the enemy
    knows a skill whose name is new to the player, the skill returned has
    a new name and absorbing it appends it to the player's skills; if the
    enemy knows nothing new, no line is read and absorbing the skill
    returned changes nothing. *)
Theorem choose_skill_to_absorb_outcome int (self : Player.t)
    (enemy : Creature.t) (pick : nat) (inputs : list string) :
  (pick < length (Creature.skills enemy))%nat →
  Player.choose_skill_to_absorb int self enemy pick inputs = Raise EOFError ∨
  ∃ skill inputs',
    Player.choose_skill_to_absorb int self enemy pick inputs
    = Ok (skill, inputs') ∧
    suffix inputs' inputs ∧
    skill ∈ Creature.skills enemy ∧
    ((∃ s, s ∈ Creature.skills enemy ∧
           Skill.name s ∉ skill_names (Player.base self)) →
     (Skill.name skill ∉ skill_names (Player.base self)) ∧
     Creature.skills (Creature.absorb_skill (Player.base self) skill)
     = Creature.skills (Player.base self) ++ [skill]) ∧
    ((∀ s, s ∈ Creature.skills enemy →
           Skill.name s ∈ skill_names (Player.base self)) →
     inputs' = inputs ∧
     Creature.absorb_skill (Player.base self) skill = Player.base self).
Proof. apply choose_skill_to_absorb_outcome_aux. Qed.

Lemma choose_skill_to_absorb_outcome_witness :
  let self := Player.init (take 2 BASIC_SKILLS) in
  let enemy := Enemy.init (-10) "Kobold" (take 2 (drop 1 BASIC_SKILLS)) in
  Player.choose_skill_to_absorb int_decimal self enemy 0 ["0"; "1"]
  = Raise EOFError ∨
  ∃ skill inputs',
    Player.choose_skill_to_absorb int_decimal self enemy 0 ["0"; "1"]
    = Ok (skill, inputs') ∧
    suffix inputs' ["0"; "1"] ∧
    skill ∈ Creature.skills enemy.
Proof.
  intros self enemy.
  destruct (choose_skill_to_absorb_outcome int_decimal self enemy 0 ["0"; "1"])
    as [Heof|(skill & inputs' & Hrun & Hsuffix & Hin & _)].
  - cbn. lia.
  - by left.
  - right. by exists skill, inputs'.
Defined.

(** ** The course of a battle *)

Lemma battle_unfold (rolls : nat → Z) (fuel k : nat) (player enemy : Creature.t) :
  battle (S fuel) rolls k player enemy
  = if Creature.is_alive player && Creature.is_alive enemy then
      let enemy' :=
        Creature.take_damage enemy (Creature.attack_power player (rolls k)) in
      if negb (Creature.is_alive enemy') then Ok (true, player, enemy', S k)
      else
        let player' :=
          Creature.take_damage player
            (Creature.attack_power enemy' (rolls (S k))) in
        if negb (Creature.is_alive player')
        then Ok (false, player', enemy', S (S k))
        else battle fuel rolls (S (S k)) player' enemy'
    else Ok (false, player, enemy, k).
Proof. reflexivity. Qed.

Lemma battle_verdict_aux (rolls : nat → Z) (fuel : nat) :
  ∀ (k : nat) (player enemy : Creature.t) (won : bool)
    (player' enemy' : Creature.t) (k' : nat),
  battle fuel rolls k player enemy = Ok (won, player', enemy', k') →
  (won = true →
   Creature.is_alive player = true ∧ Creature.is_alive enemy = true ∧
   Creature.is_alive enemy' = false ∧ Creature.is_alive player' = true ∧
   ∃ n, k' = (k + 2 * n + 1)%nat) ∧
  (won = false →
   (Creature.is_alive player && Creature.is_alive enemy = false ∧
    player' = player ∧ enemy' = enemy ∧ k' = k) ∨
   (Creature.is_alive player = true ∧ Creature.is_alive enemy = true ∧
    Creature.is_alive player' = false ∧ Creature.is_alive enemy' = true ∧
    ∃ n, k' = (k + 2 * n + 2)%nat)).
Proof.
  induction fuel as [|fuel IH]; intros k player enemy won player' enemy' k' Hrun;
    [discriminate Hrun|].
  rewrite battle_unfold in Hrun.
  destruct (Creature.is_alive player && Creature.is_alive enemy) eqn:Halive.
  2:{ injection Hrun as <- <- <- <-. split; [done|]. intros _. by left. }
  apply andb_true_iff in Halive as [Hplayer Henemy]. cbn zeta in Hrun.
  set (enemy2 := Creature.take_damage enemy
                   (Creature.attack_power player (rolls k))) in *.
  destruct (Creature.is_alive enemy2) eqn:Henemy2; cbn [negb] in Hrun.
  2:{ injection Hrun as <- <- <- <-. split; [|done]. intros _.
      repeat split; try done. exists 0%nat. lia. }
  set (player2 := Creature.take_damage player
                    (Creature.attack_power enemy2 (rolls (S k)))) in *.
  destruct (Creature.is_alive player2) eqn:Hplayer2; cbn [negb] in Hrun.
  2:{ injection Hrun as <- <- <- <-. split; [done|]. intros _. right.
      repeat split; try done. exists 0%nat. lia. }
  apply IH in Hrun as [Hwon Hlost]. split.
  - intros Htrue. destruct (Hwon Htrue) as (_ & _ & He' & Hp' & n & ->).
    repeat split; try done. exists (S n). lia.
  - intros Hfalse. right.
    destruct (Hlost Hfalse) as [(Hdead & _)|(_ & _ & Hp' & He' & n & ->)].
    + rewrite Hplayer2, Henemy2 in Hdead. discriminate Hdead.
    + repeat split; try done. exists (S n). lia.
Qed.

(** X11. The verdict of a battle.  [True] is returned only from a battle
    entered by two living creatures, with the enemy dead, the player
    alive and an odd number of rolls drawn: the player struck last.
    [False] is returned either at once, with nothing changed and no roll
    drawn, because one of the two was not alive (a dead enemy included),
    or with the player dead, the enemy alive and an even number of rolls
    drawn. *)
Theorem battle_verdict (rolls : nat → Z) (fuel : nat) :
  ∀ (k : nat) (player enemy : Creature.t) (won : bool)
    (player' enemy' : Creature.t) (k' : nat),
  battle fuel rolls k player enemy = Ok (won, player', enemy', k') →
  (won = true →
   Creature.is_alive player = true ∧ Creature.is_alive enemy = true ∧
   Creature.is_alive enemy' = false ∧ Creature.is_alive player' = true ∧
   ∃ n, k' = (k + 2 * n + 1)%nat) ∧
  (won = false →
   (Creature.is_alive player && Creature.is_alive enemy = false ∧
    player' = player ∧ enemy' = enemy ∧ k' = k) ∨
   (Creature.is_alive player = true ∧ Creature.is_alive enemy = true ∧
    Creature.is_alive player' = false ∧ Creature.is_alive enemy' = true ∧
    ∃ n, k' = (k + 2 * n + 2)%nat)).
Proof. apply battle_verdict_aux. Qed.

Lemma battle_verdict_witness :
  let player := Creature.init "You" 15 (take 2 BASIC_SKILLS) in
  let enemy := Enemy.init (-10) "Goblin" (take 1 BASIC_SKILLS) in
  let enemy' := Creature.take_damage (Creature.take_damage enemy 4) 4 in
  Creature.is_alive enemy' = false ∧
  Creature.is_alive (Creature.take_damage player 2) = true.
Proof.
  intros player enemy enemy'.
  destruct (battle_verdict (λ _, 2) 6 0 player enemy true
              (Creature.take_damage player 2) enemy' 3) as [Hwon _].
  - reflexivity.
  - destruct (Hwon eq_refl) as (_ & _ & He' & Hp' & _). by split.
Defined.

Lemma take_damage_alive_le (c : Creature.t) (amount : Z) :
  0 ≤ amount → Creature.is_alive c = true →
  0 ≤ Creature.health (Creature.take_damage c amount) ≤ Creature.health c.
Proof.
  intros Hamount Halive. apply is_alive_true in Halive.
  rewrite take_damage_health. lia.
Qed.

Lemma battle_only_lowers_health_aux (rolls : nat → Z) (fuel : nat) :
  (∀ n, 0 ≤ rolls n) →
  ∀ (k : nat) (player enemy : Creature.t) (won : bool)
    (player' enemy' : Creature.t) (k' : nat),
  battle fuel rolls k player enemy = Ok (won, player', enemy', k') →
  (Creature.name player' = Creature.name player ∧
   Creature.max_health player' = Creature.max_health player ∧
   Creature.skills player' = Creature.skills player ∧
   Creature.health player' ≤ Creature.health player ∧
   (Creature.health_ok player → Creature.health_ok player')) ∧
  (Creature.name enemy' = Creature.name enemy ∧
   Creature.max_health enemy' = Creature.max_health enemy ∧
   Creature.skills enemy' = Creature.skills enemy ∧
   Creature.health enemy' ≤ Creature.health enemy ∧
   (Creature.health_ok enemy → Creature.health_ok enemy')).
Proof.
  intros Hrolls.
  assert (∀ c n, 0 ≤ Creature.attack_power c (rolls n)) as Hpower.
  { intros c n. unfold Creature.attack_power. specialize (Hrolls n). nia. }
  induction fuel as [|fuel IH]; intros k player enemy won player' enemy' k' Hrun;
    [discriminate Hrun|].
  rewrite battle_unfold in Hrun.
  destruct (Creature.is_alive player && Creature.is_alive enemy) eqn:Halive.
  2:{ by injection Hrun as <- <- <- <-. }
  apply andb_true_iff in Halive as [Hplayer Henemy]. cbn zeta in Hrun.
  pose proof (take_damage_alive_le enemy _ (Hpower player k) Henemy) as He2.
  set (enemy2 := Creature.take_damage enemy
                   (Creature.attack_power player (rolls k))) in *.
  pose proof (take_damage_alive_le player _ (Hpower enemy2 (S k)) Hplayer) as Hp2.
  set (player2 := Creature.take_damage player
                    (Creature.attack_power enemy2 (rolls (S k)))) in *.
  assert (Creature.health_ok player → Creature.health_ok player2) as Hok_p
    by (unfold Creature.health_ok; cbn [player2 Creature.take_damage
          Creature.max_health]; lia).
  assert (Creature.health_ok enemy → Creature.health_ok enemy2) as Hok_e
    by (unfold Creature.health_ok; cbn [enemy2 Creature.take_damage
          Creature.max_health]; lia).
  destruct (Creature.is_alive enemy2); cbn [negb] in Hrun.
  2:{ injection Hrun as <- <- <- <-. split_and!; try done; lia. }
  destruct (Creature.is_alive player2); cbn [negb] in Hrun.
  2:{ injection Hrun as <- <- <- <-. split_and!; try done; lia. }
  apply IH in Hrun as [(? & ? & ? & ? & ?) (? & ? & ? & ? & ?)].
  split_and!; try (etrans; [eassumption|done]); try lia; auto.
Qed.

(** X12. A battle only ever lowers health: when no roll is negative, both
    creatures come out with their name, maximal health and skills as they
    went in, with a health not above the one they had, and within
    [0 <= health <= max_health] if they were so before. *)
Theorem battle_only_lowers_health (rolls : nat → Z) (fuel : nat) :
  (∀ n, 0 ≤ rolls n) →
  ∀ (k : nat) (player enemy : Creature.t) (won : bool)
    (player' enemy' : Creature.t) (k' : nat),
  battle fuel rolls k player enemy = Ok (won, player', enemy', k') →
  (Creature.name player' = Creature.name player ∧
   Creature.max_health player' = Creature.max_health player ∧
   Creature.skills player' = Creature.skills player ∧
   Creature.health player' ≤ Creature.health player ∧
   (Creature.health_ok player → Creature.health_ok player')) ∧
  (Creature.name enemy' = Creature.name enemy ∧
   Creature.max_health enemy' = Creature.max_health enemy ∧
   Creature.skills enemy' = Creature.skills enemy ∧
   Creature.health enemy' ≤ Creature.health enemy ∧
   (Creature.health_ok enemy → Creature.health_ok enemy')).
Proof. apply battle_only_lowers_health_aux. Qed.

Lemma battle_only_lowers_health_witness :
  let player := Creature.init "You" 15 (take 2 BASIC_SKILLS) in
  let enemy := Enemy.init (-10) "Goblin" (take 1 BASIC_SKILLS) in
  Creature.health (Creature.take_damage player 2) ≤ Creature.health player.
Proof.
  intros player enemy.
  destruct (battle_only_lowers_health (λ _, 2) 6 (λ n, ltac:(lia)) 0 player enemy
              true (Creature.take_damage player 2)
              (Creature.take_damage (Creature.take_damage enemy 4) 4) 3)
    as [(_ & _ & _ & Hle & _) _].
  - reflexivity.
  - exact Hle.
Defined.

(** ** One pass of the main loop *)

Lemma choose_skill_to_absorb_suffix int (self : Player.t) (enemy : Creature.t)
    (pick : nat) (inputs inputs' : list string) (skill : Skill.t) :
  Player.choose_skill_to_absorb int self enemy pick inputs = Ok (skill, inputs') →
  suffix inputs' inputs.
Proof.
  unfold Player.choose_skill_to_absorb.
  destruct (filter _ (Creature.skills enemy)) as [|u unique_skills].
  - unfold getitem. destruct (Creature.skills enemy !! pick); [|discriminate].
    by intros [= _ <-].
  - intros Hrun.
    destruct (choose_skill_loop_cases int (u :: unique_skills) inputs)
      as [Heof|(skill' & ins & Hrun' & _ & Hsuffix & _)]; [congruence|].
    rewrite Hrun in Hrun'. by injection Hrun' as <- <-.
Qed.

Lemma absorb_skill_frame (c : Creature.t) (skill : Skill.t) :
  Creature.health (Creature.absorb_skill c skill) = Creature.health c ∧
  Creature.max_health (Creature.absorb_skill c skill) = Creature.max_health c ∧
  Creature.name (Creature.absorb_skill c skill) = Creature.name c.
Proof. unfold Creature.absorb_skill. by case_decide. Qed.

Lemma session_ok_absorb (player : Player.t) (skill : Skill.t) :
  session_ok player →
  session_ok (Player.with_base player
                (Creature.absorb_skill (Player.base player) skill)).
Proof.
  intros (Hok & Halive & Hlayer & Hskills & Hnodup).
  pose proof (absorb_skill_length (Player.base player) skill) as [_ Hone].
  pose proof (absorb_skill_keeps_names_distinct_aux (Player.base player) skill Hnodup)
    as [Hnodup' _].
  pose proof (absorb_skill_frame (Player.base player) skill) as (Hh & Hmh & _).
  unfold session_ok, Creature.health_ok in *.
  cbn [Player.with_base Player.base Player.layer]. rewrite Hh, Hmh. done.
Qed.

Lemma session_ok_evolve (player : Player.t) :
  session_ok player → session_ok (Player.evolve player).
Proof.
  intros (Hok & Halive & Hlayer & Hskills & Hnodup).
  unfold session_ok, Creature.health_ok in *. cbn. split_and!; try done; lia.
Qed.

Lemma play_game_turn_keeps_session_aux int (fuel : nat) (rnd : encounter)
    (tbl : FusionTable.t) (player player' : Player.t)
    (inputs inputs' : list string) (f : flow) :
  session_ok player →
  (∀ n, 0 ≤ rolls rnd n) →
  play_game_turn int fuel rnd tbl player inputs = Ok (f, player', inputs') →
  (f ≠ GameOver → session_ok player') ∧
  (f = GameOver → Creature.health (Player.base player') = 0) ∧
  (f = SurfaceReached → Player.layer player = -1 ∧ player' = player) ∧
  (f = Quit → player' = player) ∧
  Creature.max_health (Player.base player)
  ≤ Creature.max_health (Player.base player') ∧
  Player.layer player ≤ Player.layer player' ≤ Player.layer player + 1 ∧
  (length inputs' < length inputs)%nat.
Proof.
  intros Hsession Hrolls Hrun.
  pose proof Hsession as (Hok & Halive & Hlayer & Hskills & Hnodup).
  unfold play_game_turn in Hrun.
  destruct inputs as [|choice inputs]; [discriminate Hrun|].
  case_decide as Hexplore.
  { (* explore *)
    destruct (battle fuel (rolls rnd) 0 (Player.base player)
                (Enemy.init (Player.layer player) (enemy_name rnd)
                   (enemy_skills rnd)))
      as [[[[won c] enemy'] k']| |] eqn:Hbattle;
      cbn [mbind res_bind] in Hrun; try discriminate Hrun.
    pose proof (battle_verdict_aux _ _ _ _ _ _ _ _ _ Hbattle) as [Hwon Hlost].
    pose proof (battle_only_lowers_health_aux _ _ Hrolls _ _ _ _ _ _ _ Hbattle)
      as [(Hname & Hmh & Hsk & Hle & Hokc) _].
    destruct won.
    - destruct (Hwon eq_refl) as (_ & _ & _ & Hc & _). apply is_alive_true in Hc.
      assert (session_ok (Player.with_base player c)) as Hsession_c.
      { unfold session_ok, skill_names.
        cbn [Player.with_base Player.base Player.layer].
        rewrite Hsk. split_and!; auto; lia. }
      destruct (Player.choose_skill_to_absorb _ _ _ _ _)
        as [[skill ins]| |] eqn:Hchoose in Hrun;
        cbn [mbind res_bind] in Hrun; try discriminate Hrun.
      apply choose_skill_to_absorb_suffix, suffix_length in Hchoose.
      pose proof (session_ok_absorb _ skill Hsession_c) as Habsorb.
      pose proof (absorb_skill_frame c skill) as (_ & Hmh' & _).
      destruct (evolves rnd); injection Hrun as <- <- <-.
      + split_and!; try done; cbn; try lia.
        intros _. by apply session_ok_evolve.
      + split_and!; try done; cbn; try lia.
    - injection Hrun as <- <- <-. cbn. split_and!; try done; try lia.
      intros _. destruct (Hlost eq_refl) as [(Hdead & _)|(_ & _ & Hc & _)].
      + apply andb_false_iff in Hdead as [Hdead|Hdead].
        * apply is_alive_false in Hdead. lia.
        * apply is_alive_false in Hdead. cbn in Hdead. lia.
      + apply is_alive_false in Hc. specialize (Hokc Hok).
        unfold Creature.health_ok in Hokc. lia. }
  case_decide as Hfuse.
  { destruct (Player.choose_fusion int player tbl inputs)
      as [[p ins]| |] eqn:Hchoose;
      cbn [mbind res_bind] in Hrun; try discriminate Hrun.
    injection Hrun as <- <- <-.
    pose proof (choose_fusion_keeps_skills_aux _ _ _ _ _ _ Hchoose)
      as (Hone & Hdistinct & _).
    destruct (choose_fusion_outcome_aux int player tbl inputs)
      as [Heof|(p' & ins' & Hrun' & Hsuffix & Hl & Hh & Hmh & _)];
      [congruence|].
    rewrite Hchoose in Hrun'. injection Hrun' as <- <-.
    apply suffix_length in Hsuffix.
    split_and!; try done; cbn; try lia.
    intros _. unfold session_ok, Creature.health_ok in *. rewrite Hl, Hh, Hmh.
    split_and!; auto; lia. }
  case_decide as Hascend.
  { unfold ascend in Hrun. case_decide as Hexit; injection Hrun as <- <- <-.
    - split_and!; try done; cbn; lia.
    - split_and!; try done; cbn; try lia.
      intros _. unfold session_ok, Creature.health_ok in *. cbn.
      split_and!; try done; lia. }
  case_decide as Hquit; injection Hrun as <- <- <-;
    split_and!; try done; cbn; lia.
Qed.

(** X13. One pass of the main loop keeps the session well formed.  From a
    player that is alive, within its health bounds, on a layer between
    -10 and -1, with at least one skill and distinct skill names, and
    with no negative roll, a pass that goes on, quits or reaches the
    surface leaves such a player; a pass ending in [GameOver] leaves the
    player with health 0.  The surface is reached only from layer -1,
    with the player unchanged.  The maximal health never decreases, the
    layer rises by at most one and at least one line is read. *)
Theorem play_game_turn_keeps_session int (fuel : nat) (rnd : encounter)
    (tbl : FusionTable.t) (player player' : Player.t)
    (inputs inputs' : list string) (f : flow) :
  session_ok player →
  (∀ n, 0 ≤ rolls rnd n) →
  play_game_turn int fuel rnd tbl player inputs = Ok (f, player', inputs') →
  (f ≠ GameOver → session_ok player') ∧
  (f = GameOver → Creature.health (Player.base player') = 0) ∧
  (f = SurfaceReached → Player.layer player = -1 ∧ player' = player) ∧
  (f = Quit → player' = player) ∧
  Creature.max_health (Player.base player)
  ≤ Creature.max_health (Player.base player') ∧
  Player.layer player ≤ Player.layer player' ≤ Player.layer player + 1 ∧
  (length inputs' < length inputs)%nat.
Proof. apply play_game_turn_keeps_session_aux. Qed.

Lemma player_init_session_ok (starting_skills : list Skill.t) :
  (1 ≤ length starting_skills)%nat →
  NoDup (Skill.name <$> starting_skills) →
  session_ok (Player.init starting_skills).
Proof.
  intros Hlen Hnodup. unfold session_ok, Creature.health_ok, skill_names.
  cbn. split_and!; try done; lia.
Qed.

Lemma basic_pair_names_distinct :
  NoDup (Skill.name <$> take 2 (drop 1 BASIC_SKILLS)).
Proof.
  cbn. repeat constructor; rewrite ?elem_of_cons, ?elem_of_nil;
    intros H; repeat destruct H as [H|H]; discriminate || done.
Qed.

Lemma play_game_turn_keeps_session_witness :
  ∃ player',
    play_game_turn int_decimal 6 goblin_encounter default_table
      (Player.init (take 2 (drop 1 BASIC_SKILLS))) ["1"; "1"; "4"]
    = Ok (Continue, player', ["4"]) ∧
    session_ok player'.
Proof.
  eexists. split; [vm_compute; reflexivity|].
  eapply (play_game_turn_keeps_session int_decimal 6 goblin_encounter
            default_table (Player.init (take 2 (drop 1 BASIC_SKILLS))) _
            ["1"; "1"; "4"] ["4"] Continue).
  - apply player_init_session_ok; [cbn; lia|apply basic_pair_names_distinct].
  - intros n. cbn. lia.
  - vm_compute. reflexivity.
  - discriminate.
Defined.

Lemma play_game_turn_answers_aux int (fuel : nat) (rnd : encounter)
    (tbl : FusionTable.t) (player : Player.t) (inputs : list string) :
  session_ok player →
  encounter_ok rnd →
  (6 ≤ fuel)%nat →
  Creature.health
    (Enemy.init (Player.layer player) (enemy_name rnd) (enemy_skills rnd)) = 5 ∧
  (play_game_turn int fuel rnd tbl player inputs = Raise EOFError ∨
   ∃ f player' inputs',
     play_game_turn int fuel rnd tbl player inputs = Ok (f, player', inputs')).
Proof.
  intros (Hok & Halive & Hlayer & Hskills & Hnodup) [Hrolls Hpick] Hfuel.
  assert (Creature.health
            (Enemy.init (Player.layer player) (enemy_name rnd) (enemy_skills rnd))
          = 5) as Hfive by (cbn; lia).
  split; [done|].
  unfold play_game_turn. destruct inputs as [|choice inputs]; [by left|].
  case_decide as Hexplore.
  { destruct (battle_total (rolls rnd) Hrolls fuel 0 (Player.base player)
                (Enemy.init (Player.layer player) (enemy_name rnd)
                   (enemy_skills rnd)))
      as [[[[won c] enemy'] k'] Hbattle]; [done|rewrite Hfive; lia|].
    rewrite Hbattle. cbn [mbind res_bind].
    destruct won; [|right; by eexists _, _, _].
    assert (∀ n, 0 ≤ rolls rnd n) as Hnonneg
      by (intros n; specialize (Hrolls n); lia).
    pose proof (battle_only_lowers_health_aux _ _ Hnonneg _ _ _ _ _ _ _ Hbattle)
      as [_ (_ & _ & Hsk & _)].
    destruct (choose_skill_to_absorb_outcome_aux int (Player.with_base player c)
                enemy' (pick rnd) inputs)
      as [Heof|(skill & ins & Hchoose & _)]; [by rewrite Hsk|..].
    - left. by rewrite Heof.
    - right. rewrite Hchoose. cbn [mbind res_bind].
      destruct (evolves rnd); by eexists _, _, _. }
  case_decide as Hfuse.
  { destruct (choose_fusion_outcome_aux int player tbl inputs)
      as [Heof|(p & ins & Hchoose & _)].
    - left. by rewrite Heof.
    - right. rewrite Hchoose. by eexists _, _, _. }
  right. case_decide; [destruct (ascend player)|case_decide]; by eexists _, _, _.
Qed.

(** X14. In a well-formed session every enemy has exactly 5 health points,
    so six iterations of fuel are enough for any battle: one pass of the
    main loop, with the rolls and the position drawn by [random] within
    their ranges, either returns or stops at the end of the input.  It
    never fails on an index and never needs more fuel. *)
Theorem play_game_turn_answers int (fuel : nat) (rnd : encounter)
    (tbl : FusionTable.t) (player : Player.t) (inputs : list string) :
  session_ok player →
  encounter_ok rnd →
  (6 ≤ fuel)%nat →
  Creature.health
    (Enemy.init (Player.layer player) (enemy_name rnd) (enemy_skills rnd)) = 5 ∧
  (play_game_turn int fuel rnd tbl player inputs = Raise EOFError ∨
   ∃ f player' inputs',
     play_game_turn int fuel rnd tbl player inputs = Ok (f, player', inputs')).
Proof. apply play_game_turn_answers_aux. Qed.

Lemma play_game_turn_answers_witness :
  play_game_turn int_decimal 6 goblin_encounter default_table
    (Player.init (take 2 (drop 1 BASIC_SKILLS))) ["1"; "x"] = Raise EOFError ∨
  ∃ f player' inputs',
    play_game_turn int_decimal 6 goblin_encounter default_table
      (Player.init (take 2 (drop 1 BASIC_SKILLS))) ["1"; "x"]
    = Ok (f, player', inputs').
Proof.
  apply play_game_turn_answers.
  - apply player_init_session_ok; [cbn; lia|apply basic_pair_names_distinct].
  - split; [intros n; cbn; lia|cbn; lia].
  - lia.
Defined.

(** ** Whole sessions *)

Section Sessions.

Variable int : string → option Z.
Variable rnd : nat → encounter.
Variable fuel : nat.
Variable tbl : FusionTable.t.

Hypothesis rnd_ok : ∀ i, encounter_ok (rnd i).
Hypothesis fuel_enough : (6 ≤ fuel)%nat.

Lemma rnd_nonneg (i n : nat) : 0 ≤ rolls (rnd i) n.
Proof. destruct (rnd_ok i) as [Hrolls _]. specialize (Hrolls n). lia. Qed.

Lemma play_game_loop_ends (turns : nat) :
  ∀ (i : nat) (player : Player.t) (inputs : list string),
  session_ok player →
  (length inputs < turns)%nat →
  play_game_loop int turns fuel rnd i tbl player inputs = Raise EOFError ∨
  ∃ f player' inputs',
    play_game_loop int turns fuel rnd i tbl player inputs
    = Ok (f, player', inputs') ∧
    f ≠ Continue ∧
    (f ≠ GameOver → session_ok player') ∧
    (f = GameOver → Creature.health (Player.base player') = 0) ∧
    (f = SurfaceReached → Player.layer player' = -1) ∧
    (f = SurfaceReached →
     Z.of_nat (length inputs') + Player.layer player' + 1
     ≤ Z.of_nat (length inputs) + Player.layer player) ∧
    Z.of_nat (length inputs') + Player.layer player'
    ≤ Z.of_nat (length inputs) + Player.layer player ∧
    (length inputs' < length inputs)%nat.
Proof.
  induction turns as [|turns IH]; intros i player inputs Hsession Hturns; [lia|].
  cbn [play_game_loop].
  destruct (play_game_turn_answers_aux int fuel (rnd i) tbl player inputs
              Hsession (rnd_ok i) fuel_enough)
    as [_ [Heof|(f & p & ins & Hturn)]].
  { left. by rewrite Heof. }
  rewrite Hturn. cbn [mbind res_bind].
  pose proof (play_game_turn_keeps_session_aux int fuel (rnd i) tbl player p inputs
                ins f Hsession (rnd_nonneg i) Hturn)
    as (Hok & Hover & Hsurface & _ & _ & Hlayer & Hlen).
  assert (f ≠ Continue →
          ∃ f' player' inputs',
            Ok (f, p, ins) = Ok (f', player', inputs') ∧
            f' ≠ Continue ∧
            (f' ≠ GameOver → session_ok player') ∧
            (f' = GameOver → Creature.health (Player.base player') = 0) ∧
            (f' = SurfaceReached → Player.layer player' = -1) ∧
            (f' = SurfaceReached →
             Z.of_nat (length inputs') + Player.layer player' + 1
             ≤ Z.of_nat (length inputs) + Player.layer player) ∧
            Z.of_nat (length inputs') + Player.layer player'
            ≤ Z.of_nat (length inputs) + Player.layer player ∧
            (length inputs' < length inputs)%nat) as Hstop.
  { intros Hf. exists f, p, ins. split_and!; try done; try lia.
    - intros Hs. destruct (Hsurface Hs) as [? ->]. done.
    - intros Hs. destruct (Hsurface Hs) as [? ->]. lia. }
  destruct f; try (right; by apply Hstop).
  destruct (IH (S i) p ins) as [Heof|(f' & p' & ins' & Hrun & Hrest)];
    [by apply Hok|lia|by left|right].
  exists f', p', ins'. split; [done|].
  destruct Hrest as (? & ? & ? & ? & Hs & ? & ?). split_and!; try done; try lia.
  intros Hf'. specialize (Hs Hf'). lia.
Qed.

End Sessions.

(** X15. A session on a finite input always ends.  With two starting
    skills of distinct names (any non-empty list does), every value of
    [random] within its range, six iterations of fuel for each battle and
    more passes allowed than there are lines, [play_game] either stops at
    the end of the input or leaves its loop by one of the three [break]s:
    never on an index error, never for lack of fuel.  After a defeat the
    player's health is 0; after the other two the player is alive and
    well formed; the surface is reached on layer -1 only. *)
Theorem play_game_ends int (turns fuel : nat) (starting_skills : list Skill.t)
    (rnd : nat → encounter) (inputs : list string) :
  (1 ≤ length starting_skills)%nat →
  NoDup (Skill.name <$> starting_skills) →
  (∀ i, encounter_ok (rnd i)) →
  (6 ≤ fuel)%nat →
  (length inputs < turns)%nat →
  play_game int turns fuel starting_skills rnd inputs = Raise EOFError ∨
  ∃ f player' inputs',
    play_game int turns fuel starting_skills rnd inputs
    = Ok (f, player', inputs') ∧
    f ≠ Continue ∧
    (f ≠ GameOver → session_ok player') ∧
    (f = GameOver → Creature.health (Player.base player') = 0) ∧
    (f = SurfaceReached → Player.layer player' = -1) ∧
    (length inputs' < length inputs)%nat.
Proof.
  intros Hlen Hnodup Hrnd Hfuel Hturns. unfold play_game.
  cbn [FusionTable.init FusionTable._register_default_fusions FusionTable.add
       mbind res_bind].
  match goal with
  | |- context [play_game_loop int turns fuel rnd 0 ?tbl ?p inputs] =>
      destruct (play_game_loop_ends int rnd fuel tbl Hrnd Hfuel turns 0 p inputs)
        as [Heof|(f & p' & ins' & Hrun & ? & ? & ? & ? & ? & ? & ?)]
  end; [by apply player_init_session_ok|done|by left|right].
  by exists f, p', ins'.
Qed.

Lemma play_game_ends_witness :
  play_game int_decimal 5 6 (take 2 (drop 1 BASIC_SKILLS))
    (λ _, goblin_encounter) ["1"; "1"; "2"; "1"] = Raise EOFError ∨
  ∃ f player' inputs',
    play_game int_decimal 5 6 (take 2 (drop 1 BASIC_SKILLS))
      (λ _, goblin_encounter) ["1"; "1"; "2"; "1"] = Ok (f, player', inputs') ∧
    f ≠ Continue.
Proof.
  destruct (play_game_ends int_decimal 5 6 (take 2 (drop 1 BASIC_SKILLS))
              (λ _, goblin_encounter) ["1"; "1"; "2"; "1"])
    as [Heof|(f & p' & ins' & Hrun & Hf & _)].
  - cbn [length take drop BASIC_SKILLS]. lia.
  - apply basic_pair_names_distinct.
  - intros i. split; [intros n; cbn [goblin_encounter rolls]; lia|].
    cbn [goblin_encounter pick enemy_skills take BASIC_SKILLS length]. lia.
  - lia.
  - cbn [length]. lia.
  - left. exact Heof.
  - right. exists f, p', ins'. split; [exact Hrun|exact Hf].
Defined.

(** X16. The surface is at least ten lines away: a session that ends by
    reaching the surface has read ten lines or more, nine ascents and the
    last step. *)
Theorem surface_needs_ten_lines int (turns fuel : nat)
    (starting_skills : list Skill.t) (rnd : nat → encounter)
    (inputs inputs' : list string) (player' : Player.t) :
  (1 ≤ length starting_skills)%nat →
  NoDup (Skill.name <$> starting_skills) →
  (∀ i, encounter_ok (rnd i)) →
  (6 ≤ fuel)%nat →
  (length inputs < turns)%nat →
  play_game int turns fuel starting_skills rnd inputs
  = Ok (SurfaceReached, player', inputs') →
  (length inputs' + 10 ≤ length inputs)%nat.
Proof.
  intros Hlen Hnodup Hrnd Hfuel Hturns. unfold play_game.
  cbn [FusionTable.init FusionTable._register_default_fusions FusionTable.add
       mbind res_bind].
  intros Hrun.
  match type of Hrun with
  | play_game_loop int turns fuel rnd 0 ?tbl ?p inputs = _ =>
      destruct (play_game_loop_ends int rnd fuel tbl Hrnd Hfuel turns 0 p inputs)
        as [Heof|(f & p' & ins' & Hrun' & _ & _ & _ & Hsurface & Hlines & _)]
  end; [by apply player_init_session_ok|done|congruence|].
  rewrite Hrun in Hrun'. injection Hrun' as <- <- <-.
  specialize (Hsurface eq_refl). specialize (Hlines eq_refl).
  rewrite Hsurface in Hlines. cbn [Player.init Player.layer] in Hlines. lia.
Qed.

Lemma surface_needs_ten_lines_witness :
  (length ([] : list string) + 10
   ≤ length ["3"; "3"; "3"; "3"; "3"; "3"; "3"; "3"; "3"; "3"])%nat.
Proof.
  apply (surface_needs_ten_lines int_decimal 11 6 (take 2 BASIC_SKILLS)
           (λ _, goblin_encounter)
           ["3"; "3"; "3"; "3"; "3"; "3"; "3"; "3"; "3"; "3"] []
           {| Player.base := Creature.init "You" 15 (take 2 BASIC_SKILLS);
              Player.layer := -1 |}).
  - cbn [length take BASIC_SKILLS]. lia.
  - cbn. repeat constructor; rewrite ?elem_of_cons, ?elem_of_nil;
      intros H; repeat destruct H as [H|H]; discriminate || done.
  - intros i. split; [intros n; cbn [goblin_encounter rolls]; lia|].
    cbn [goblin_encounter pick enemy_skills take BASIC_SKILLS length]. lia.
  - lia.
  - cbn [length]. lia.
  - vm_compute. reflexivity.
Defined.

(** ** The catalogue and the default rules *)

(** X17. Names identify the basic skills: any selection of pairwise
    different skills from the catalogue, such as [random.sample] returns
    for the player and for each enemy, has pairwise different names. *)
Theorem sample_names_distinct (sample : list Skill.t) :
  NoDup sample →
  (∀ s, s ∈ sample → s ∈ BASIC_SKILLS) →
  NoDup (Skill.name <$> sample).
Proof.
  intros Hnodup Hsub. apply NoDup_fmap_2_strong; [|done].
  intros x y Hx Hy. apply Hsub in Hx, Hy. revert Hx Hy.
  unfold BASIC_SKILLS. rewrite !elem_of_cons, !elem_of_nil.
  intros Hx Hy Hname.
  repeat (destruct Hx as [->|Hx]; [|]); try done;
    repeat (destruct Hy as [->|Hy]; [|]); try done; discriminate Hname.
Qed.

Lemma sample_names_distinct_witness :
  NoDup (Skill.name <$> take 2 (drop 3 BASIC_SKILLS)).
Proof.
  apply sample_names_distinct.
  - cbn. repeat constructor; rewrite ?elem_of_cons, ?elem_of_nil;
      intros H; repeat destruct H as [H|H]; discriminate || done.
  - intros s. unfold BASIC_SKILLS. cbn [take drop].
    rewrite !elem_of_cons, !elem_of_nil. intuition.
Defined.

Lemma pair_key_eq (A B : Skill.t) (a b : string) :
  ({[ a; b ]} : gset string) = {[ Skill.name A; Skill.name B ]} ↔
  names_are A B a b.
Proof.
  unfold names_are. split.
  - intros H. symmetry in H. by apply frozenset_pair_eq in H.
  - intros [[-> ->]|[-> ->]]; [done|apply frozenset_pair_comm].
Qed.

(** Two hypotheses that give one unordered pair of names two values. *)
Ltac key_clash :=
  match goal with
  | H : ?k ≠ ?k', H' : ?k = ?k' |- _ => destruct (H H')
  | H1 : ?k1 = ?k, H2 : ?k2 = ?k |- _ =>
      rewrite <- H2 in H1; apply frozenset_pair_eq in H1;
      destruct H1 as [[? ?]|[? ?]]; discriminate
  end.

Lemma default_rules (A B r : Skill.t) :
  FusionTable.fuse
    {| FusionTable._table :=
         <[ ({[ "Fireball"; "Wind Burst" ]} : gset string) := flaming_cyclone ]>
         (<[ ({[ "Water Jet"; "Electric Current" ]} : gset string) :=
              conductive_spray ]>
         (<[ ({[ "Thread Shot"; "Acid Glob" ]} : gset string) := acidic_web ]>
            ∅)) |} A B = Some r ↔
  (names_are A B "Thread Shot" "Acid Glob" ∧ r = acidic_web) ∨
  (names_are A B "Water Jet" "Electric Current" ∧ r = conductive_spray) ∨
  (names_are A B "Fireball" "Wind Burst" ∧ r = flaming_cyclone).
Proof.
  unfold FusionTable.fuse. cbn [FusionTable._table].
  rewrite !lookup_insert, lookup_empty. rewrite <- !pair_key_eq.
  repeat case_decide; (split; [intros [= <-]; tauto|]);
    intros [[Hk ->]|[[Hk ->]|[Hk ->]]]; first [done | key_clash].
Qed.

(** X18. The table built by [FusionTable()] holds three rules and nothing
    else: two skills fuse exactly when their names are, in one order or
    the other, "Thread Shot" and "Acid Glob" (into "Acidic Web"),
    "Water Jet" and "Electric Current" (into "Conductive Spray"), or
    "Fireball" and "Wind Burst" (into "Flaming Cyclone").  In particular
    no skill fuses with a skill of the same name. *)
Theorem default_fusions (tbl : FusionTable.t) (A B r : Skill.t) :
  FusionTable.init = Ok tbl →
  (FusionTable.fuse tbl A B = Some r ↔
   (names_are A B "Thread Shot" "Acid Glob" ∧ r = acidic_web) ∨
   (names_are A B "Water Jet" "Electric Current" ∧ r = conductive_spray) ∨
   (names_are A B "Fireball" "Wind Burst" ∧ r = flaming_cyclone)) ∧
  (Skill.name A = Skill.name B → FusionTable.fuse tbl A B = None).
Proof.
  intros [= <-]. split; [apply default_rules|].
  intros Hsame.
  destruct (FusionTable.fuse _ A B) as [r'|] eqn:Hfuse; [exfalso|done].
  apply default_rules in Hfuse. unfold names_are in Hfuse.
  rewrite Hsame in Hfuse.
  destruct Hfuse
    as [[[[H1 H2]|[H1 H2]] _]|[[[[H1 H2]|[H1 H2]] _]|[[[H1 H2]|[H1 H2]] _]]];
    rewrite H1 in H2; discriminate H2.
Qed.

Lemma default_fusions_witness :
  let jet := Skill.mk "Water Jet" "A jet." "Water" in
  let current := Skill.mk "Electric Current" "A surge." "Lightning" in
  FusionTable.fuse default_table current jet = Some conductive_spray ∧
  FusionTable.fuse default_table jet jet = None.
Proof.
  intros jet current.
  destruct (default_fusions default_table current jet conductive_spray)
    as [Hrules _]; [reflexivity|].
  destruct (default_fusions default_table jet jet conductive_spray)
    as [_ Hsame]; [reflexivity|].
  split.
  - apply Hrules. right. left. split; [right; split; reflexivity|reflexivity].
  - apply Hsame. reflexivity.
Defined.

(** ** The length of a battle *)

Lemma battle_rolls_bound_aux (rolls : nat → Z) (fuel : nat) :
  (∀ n, 1 ≤ rolls n ≤ 3) →
  ∀ (k : nat) (player enemy : Creature.t) (won : bool)
    (player' enemy' : Creature.t) (k' : nat),
  (1 ≤ length (Creature.skills player))%nat →
  battle fuel rolls k player enemy = Ok (won, player', enemy', k') →
  (k ≤ k' ≤ k + 2 * Z.to_nat (Creature.health enemy))%nat ∧
  (Creature.is_alive player && Creature.is_alive enemy = false → k' = k).
Proof.
  intros Hrolls.
  induction fuel as [|fuel IH];
    intros k player enemy won player' enemy' k' Hskills Hrun;
    [discriminate Hrun|].
  rewrite battle_unfold in Hrun.
  destruct (Creature.is_alive player && Creature.is_alive enemy) eqn:Halive.
  2:{ injection Hrun as <- <- <- <-. split; [lia|done]. }
  split; [|discriminate].
  apply andb_true_iff in Halive as [_ Henemy]. apply is_alive_true in Henemy.
  cbn zeta in Hrun.
  pose proof (attack_power_at_least_skills rolls Hrolls player k) as Hpower.
  set (enemy2 := Creature.take_damage enemy
                   (Creature.attack_power player (rolls k))) in *.
  assert (Creature.health enemy2
          = Z.max 0 (Creature.health enemy
                     - Creature.attack_power player (rolls k))) as Hhealth
    by reflexivity.
  destruct (Creature.is_alive enemy2) eqn:Henemy2; cbn [negb] in Hrun.
  2:{ injection Hrun as <- <- <- <-. lia. }
  apply is_alive_true in Henemy2.
  destruct (Creature.is_alive (Creature.take_damage player _)) eqn:Hplayer2;
    cbn [negb] in Hrun.
  2:{ injection Hrun as <- <- <- <-. lia. }
  apply IH in Hrun as [Hbound _]; [|by rewrite take_damage_skills]. lia.
Qed.

(** X19. A battle fought by a player with at least one skill, with rolls
    between 1 and 3, ends and draws at most twice as many rolls as the
    enemy has health points: with any fuel above the enemy's health it
    returns one answer, whose count of rolls is within that bound; a
    battle that is not entered draws none. *)
Theorem battle_rolls_bound (rolls : nat → Z) (k : nat)
    (player enemy : Creature.t) :
  (∀ n, 1 ≤ rolls n ≤ 3) →
  (1 ≤ length (Creature.skills player))%nat →
  ∃ (won : bool) (player' enemy' : Creature.t) (k' : nat),
    (∀ fuel, (Z.to_nat (Creature.health enemy) < fuel)%nat →
       battle fuel rolls k player enemy = Ok (won, player', enemy', k')) ∧
    (k ≤ k' ≤ k + 2 * Z.to_nat (Creature.health enemy))%nat ∧
    (Creature.is_alive player && Creature.is_alive enemy = false → k' = k).
Proof.
  intros Hrolls Hskills.
  set (enough := S (Z.to_nat (Creature.health enemy))).
  destruct (battle_total rolls Hrolls enough k player enemy)
    as [[[[won player'] enemy'] k'] Hrun]; [done|unfold enough; lia|].
  exists won, player', enemy', k'. split.
  - intros fuel Hfuel.
    apply (battle_fuel_mono rolls enough); [done|]. unfold enough. lia.
  - by apply (battle_rolls_bound_aux rolls enough Hrolls k player enemy won
                player' enemy' k').
Qed.

Lemma battle_rolls_bound_witness :
  ∃ (won : bool) (player' enemy' : Creature.t) (k' : nat),
    (∀ fuel, (5 < fuel)%nat →
       battle fuel (λ _, 2) 0 (Creature.init "You" 15 (take 2 BASIC_SKILLS))
         (Enemy.init (-10) "Goblin" (take 1 BASIC_SKILLS))
       = Ok (won, player', enemy', k')) ∧
    (k' ≤ 10)%nat.
Proof.
  destruct (battle_rolls_bound (λ _, 2) 0
              (Creature.init "You" 15 (take 2 BASIC_SKILLS))
              (Enemy.init (-10) "Goblin" (take 1 BASIC_SKILLS)))
    as (won & player' & enemy' & k' & Hrun & Hbound & _).
  - intros n. lia.
  - cbn [Creature.init Creature.skills take BASIC_SKILLS length]. lia.
  - exists won, player', enemy', k'. split; [exact Hrun|].
    change (Z.to_nat (Creature.health
                        (Enemy.init (-10) "Goblin" (take 1 BASIC_SKILLS))))
      with 5%nat in Hbound. lia.
Defined.

(** The menu offered to a player who knows "Thread Shot" and "Acid Glob". *)
Lemma fusion_pairs_exact_witness :
  (0%nat, 1%nat, acidic_web)
  ∈ Player.fusion_pairs default_table (take 2 (drop 1 BASIC_SKILLS)).
Proof.
  apply fusion_pairs_exact. split; [lia|].
  eexists _, _. split; [reflexivity|]. split; [reflexivity|].
  vm_compute. reflexivity.
Defined.
